(** * IntentLayer AI server: session store and memory store

    A shallow embedding of [services/session_service.py] and
    [services/memory_service.py], together with the properties of the two
    stores that the specification states.

    Modelling conventions.
    - A Python [dict] is an association list in insertion order with unique
      keys ([Py.wf]).  The code depends on that order: [min] over the
      sessions of a user returns the first minimal one, [json.dumps] prints
      keys in insertion order, [max] over the tally returns the first
      maximal item.
    - JSON-like values ([Dict[str, Any]]) are the inductive type [Py.pyval].
      Floating point numbers inside payloads are not represented.
    - An instant ([datetime]) is an integer number of microseconds.  The
      clock ([datetime.now()]) and the generated identifiers
      ([uuid.uuid4()]) are arguments of the operations.  The timestamp of
      a memory entry is a [datetime] object or an ISO string, depending on
      where the entry comes from ([Py.pytime]); the code treats the two
      differently.
    - A Python [float] is an IEEE 754 double.  Every finite double is a
      rational number, and the model keeps a score as that rational ([Q]):
      a literal stands for the double nearest to it and every addition and
      multiplication is rounded to the nearest double, ties to even
      ([Py.fl]), so that [0.5 + 0.2 + 0.1] is [0.7999999999999999] as in the
      source.  Comparisons of doubles are comparisons of their values.  A
      score already in the store is whatever number the snapshot held.
    - A Python [str] is a sequence of Unicode characters; the model keeps
      it as its UTF-8 encoding, the form in which it arrives in a request.
      [len], iteration, [str.split] and [str.strip] work on the characters
      ([Py.chars]) with the white space of Unicode; the test [x in y] on the
      encodings agrees with the test on the characters, since no encoding of
      a character occurs inside or across the encodings of others.
      [str.lower] follows the case tables of Unicode, which are not
      reproduced: the search functions take it as a parameter, and the
      worked examples, whose texts are all ASCII, use [Py.ascii_lower].
    - A caught exception ([try ... except Exception]) is a value of
      [Py.result]; the state returned with it is the state as mutated up to
      the point where the exception was raised.
    - File persistence ([_save_..._to_file]) writes a snapshot and never
      changes the in-memory state, so it does not appear.  Response messages
      (free text) are not modelled. *)

From Stdlib Require Import List String Ascii ZArith QArith Qminmax Lia Bool.
From Stdlib Require Import Qround Qpower Qabs Permutation Sorted.
From Stdlib Require Import DecimalString Lqa.
Import ListNotations.

Local Open Scope string_scope.
Local Open Scope list_scope.
Local Open Scope Z_scope.

(** ** The Python layer *)

Module Py.

(** Exceptions the two services can meet. *)
Inductive exn : Type :=
| TypeError
| ValueError
| KeyError
| ValidationError.

Inductive result (A : Type) : Type :=
| Ok (a : A)
| Raise (e : exn).
Arguments Ok {A} a.
Arguments Raise {A} e.

Definition bind {A B : Type} (r : result A) (k : A -> result B) : result B :=
  match r with
  | Ok a => k a
  | Raise e => Raise e
  end.

Declare Scope py_scope.
Delimit Scope py_scope with py.
Notation "'let*' x ':=' r 'in' k" := (bind r (fun x => k))
  (at level 10, x name, r at level 100, k at level 200) : py_scope.

(** Values of type [Any] as they come out of a JSON request body. *)
#[warnings="-register-all"]
Inductive pyval : Type :=
| PNone
| PBool (b : bool)
| PInt (z : Z)
| PStr (s : string)
| PList (l : list pyval)
| PDict (d : list (string * pyval)).

(** *** Dictionaries *)

Section Dict.
Context {V : Type}.

Definition dict : Type := list (string * V).

Fixpoint get (k : string) (d : dict) : option V :=
  match d with
  | [] => None
  | (k', v) :: r => if String.eqb k k' then Some v else get k r
  end.

(** [k in d] *)
Definition contains (k : string) (d : dict) : bool :=
  match get k d with
  | Some _ => true
  | None => false
  end.

(** [d[k] = v]: an existing key keeps its position, a new key goes to
    the end. *)
Fixpoint set (k : string) (v : V) (d : dict) : dict :=
  match d with
  | [] => [(k, v)]
  | (k', v') :: r =>
      if String.eqb k k' then (k', v) :: r else (k', v') :: set k v r
  end.

(** [del d[k]]; every call in the source is guarded by [k in d]. *)
Fixpoint del (k : string) (d : dict) : dict :=
  match d with
  | [] => []
  | (k', v') :: r =>
      if String.eqb k k' then r else (k', v') :: del k r
  end.

(** [d.update(p)] *)
Definition update (d p : dict) : dict :=
  fold_left (fun acc kv => set (fst kv) (snd kv) acc) p d.

Definition keys (d : dict) : list string := map fst d.
Definition values (d : dict) : list V := map snd d.

(** Keys of a Python dict are pairwise distinct. *)
Definition wf (d : dict) : Prop := NoDup (keys d).
End Dict.
Arguments dict V : clear implicits.

(** Truth value of a dict used as a condition ([if context:]). *)
Definition truthy {V : Type} (d : dict V) : bool :=
  match d with
  | [] => false
  | _ :: _ => true
  end.

(** The characters of a [str]: in UTF-8 a character is one byte that is not
    a continuation byte (binary [10xxxxxx]) followed by its continuation
    bytes. *)
Definition is_continuation (c : ascii) : bool :=
  let n := nat_of_ascii c in
  ((128 <=? n) && (n <? 192))%nat.

Definition flush (cur : string) (k : list string) : list string :=
  match cur with
  | EmptyString => k
  | _ => cur :: k
  end.

Fixpoint chars_from (cur s : string) : list string :=
  match s with
  | EmptyString => flush cur []
  | String c r =>
      if is_continuation c
      then chars_from (cur ++ String c EmptyString)%string r
      else flush cur (chars_from (String c EmptyString) r)
  end.

Definition chars (s : string) : list string := chars_from EmptyString s.

(** [len(s)] on a [str]: the number of characters. *)
Definition str_len (s : string) : nat := List.length (chars s).

(** [len(v)] on a value of type [Any]. *)
Definition len (v : pyval) : result nat :=
  match v with
  | PStr s => Ok (str_len s)
  | PList l => Ok (List.length l)
  | PDict d => Ok (List.length d)
  | PNone | PBool _ | PInt _ => Raise TypeError
  end.

(** [l[:k]] for an [int] bound [k]. *)
Definition slice_to {A : Type} (k : Z) (l : list A) : list A :=
  if k <? 0 then firstn (List.length l - Z.to_nat (- k)) l
  else firstn (Z.to_nat k) l.

(** [l[-k:]] for a positive literal [k]. *)
Definition last_n {A : Type} (k : nat) (l : list A) : list A :=
  skipn (List.length l - k) l.

(** [min(l, key=key)]: the first element with the least key. *)
Fixpoint min_from {A : Type} (key : A -> Z) (best : A) (l : list A) : A :=
  match l with
  | [] => best
  | y :: r => if key y <? key best then min_from key y r
              else min_from key best r
  end.

Definition min_by {A : Type} (key : A -> Z) (l : list A) : result A :=
  match l with
  | [] => Raise ValueError
  | x :: r => Ok (min_from key x r)
  end.

(** [sorted(l, key=..., reverse=True)] is stable: elements with equal
    keys keep their order.  [lt a b] says that the key of [a] is strictly
    below the key of [b]. *)
Section Sorted.
Context {A : Type} (lt : A -> A -> bool).

Fixpoint insert_desc (x : A) (l : list A) : list A :=
  match l with
  | [] => [x]
  | y :: r => if lt x y then y :: insert_desc x r else x :: y :: r
  end.

Fixpoint sorted_desc (l : list A) : list A :=
  match l with
  | [] => []
  | x :: r => insert_desc x (sorted_desc r)
  end.

(** [x] may stand before [y] in a descending list. *)
Definition not_below (x y : A) : Prop := lt x y = false.
End Sorted.


(** [max(l, key=key)]: the first element with the greatest key. *)
Fixpoint max_from {A : Type} (key : A -> Z) (best : A) (l : list A) : A :=
  match l with
  | [] => best
  | y :: r => if key best <? key y then max_from key y r
              else max_from key best r
  end.

(** [sorted] compares keys with [<]; on keys that Python cannot order
    ([str] against [datetime]) the comparison raises [TypeError].  A
    comparison sort that terminates normally has compared, directly, enough
    pairs to fix the order of the whole list, so it raises exactly when the
    list holds two elements whose keys cannot be ordered. *)
Definition sorted_checked {A : Type} (comparable lt : A -> A -> bool)
    (l : list A) : result (list A) :=
  if forallb (fun a => forallb (comparable a) l) l
  then Ok (sorted_desc lt l)
  else Raise TypeError.

(** *** Timestamps as the store holds them

    An entry appended by [store_interaction] carries the [datetime] object
    of [entry.dict()]; an entry read back from the snapshot file carries
    the string [json.load] returned ([json.dump] wrote it with
    [default=str]).  Both denote an instant, and the strings order
    lexicographically as their instants do. *)
Inductive pytime : Type :=
| PDatetime (us : Z)
| PIsoStr (us : Z).

Definition instant (t : pytime) : Z :=
  match t with
  | PDatetime us => us
  | PIsoStr us => us
  end.

Definition same_kind (a b : pytime) : bool :=
  match a, b with
  | PDatetime _, PDatetime _ => true
  | PIsoStr _, PIsoStr _ => true
  | _, _ => false
  end.

(** [datetime.fromisoformat(x)]: the argument must be a [str]. *)
Definition fromisoformat (t : pytime) : result Z :=
  match t with
  | PIsoStr us => Ok us
  | PDatetime _ => Raise TypeError
  end.

(** [timedelta(days=n)] in microseconds. *)
Definition days (n : nat) : Z := Z.of_nat n * 86400 * 1000000.

(** *** Strings *)

(** [str.lower] on a [str] whose characters are all ASCII: the letters [A]
    to [Z] are lowered and nothing else changes.  It is the value of
    [str.lower] in the worked examples, whose texts are all ASCII. *)
Definition lower_letter (c : ascii) : ascii :=
  let n := nat_of_ascii c in
  if ((65 <=? n) && (n <=? 90))%nat then ascii_of_nat (n + 32) else c.

Fixpoint ascii_lower (s : string) : string :=
  match s with
  | EmptyString => EmptyString
  | String c r => String (lower_letter c) (ascii_lower r)
  end.

(** [needle in hay] on strings. *)
Fixpoint str_in (needle hay : string) : bool :=
  String.prefix needle hay
  || match hay with
     | EmptyString => false
     | String _ r => str_in needle r
     end.

(** [ch.isspace()]: the characters that [str.split] and [str.strip] treat
    as white space.  They are U+0009 to U+000D, U+001C to U+0020, U+0085,
    U+00A0, U+1680, U+2000 to U+200A, U+2028, U+2029, U+202F, U+205F and
    U+3000, given here by their encodings. *)
Definition is_space (ch : string) : bool :=
  match map nat_of_ascii (list_ascii_of_string ch) with
  | [n] => ((9 <=? n) && (n <=? 13)) || ((28 <=? n) && (n <=? 32))
  | [a; b] => (a =? 194) && ((b =? 133) || (b =? 160))
  | [a; b; c] =>
      ((a =? 225) && (b =? 154) && (c =? 128))
      || ((a =? 226) && (b =? 128)
          && (((128 <=? c) && (c <=? 138))
              || (c =? 168) || (c =? 169) || (c =? 175)))
      || ((a =? 226) && (b =? 129) && (c =? 159))
      || ((a =? 227) && (b =? 128) && (c =? 128))
  | _ => false
  end%nat.

Fixpoint split_chars (cur : string) (cs : list string) : list string :=
  match cs with
  | [] => flush cur []
  | ch :: r =>
      if is_space ch then flush cur (split_chars EmptyString r)
      else split_chars (cur ++ ch)%string r
  end.

(** [s.split()] *)
Definition split (s : string) : list string :=
  split_chars EmptyString (chars s).

Fixpoint lstrip_chars (cs : list string) : list string :=
  match cs with
  | [] => []
  | ch :: r => if is_space ch then lstrip_chars r else cs
  end.

Definition strip_chars (cs : list string) : list string :=
  rev (lstrip_chars (rev (lstrip_chars cs))).

(** [s.strip()] *)
Definition strip (s : string) : string :=
  String.concat EmptyString (strip_chars (chars s)).

(** Every character of [s] is white space: [s.strip()] is empty. *)
Definition blank (s : string) : bool := forallb is_space (chars s).

Fixpoint join (sep : string) (l : list string) : string :=
  match l with
  | [] => EmptyString
  | [x] => x
  | x :: r => (x ++ sep ++ join sep r)%string
  end.

(** *** [json.dumps(v, ensure_ascii=False)] *)
Definition dquote : string := String (ascii_of_nat 34) EmptyString.

Definition hex_digit (n : nat) : ascii :=
  if (n <? 10)%nat then ascii_of_nat (48 + n) else ascii_of_nat (87 + n).

Definition escape_char (c : ascii) : string :=
  let n := nat_of_ascii c in
  if (n =? 34)%nat then ("\" ++ dquote)%string
  else if (n =? 92)%nat then "\\"
  else if (n =? 10)%nat then "\n"
  else if (n =? 13)%nat then "\r"
  else if (n =? 9)%nat then "\t"
  else if (n =? 8)%nat then "\b"
  else if (n =? 12)%nat then "\f"
  else if (n <? 32)%nat then
    ("\u00" ++ String (hex_digit (n / 16)) (String (hex_digit (n mod 16))
                                                   EmptyString))%string
  else String c EmptyString.

Fixpoint escape (s : string) : string :=
  match s with
  | EmptyString => EmptyString
  | String c r => (escape_char c ++ escape r)%string
  end.

Definition quote (s : string) : string := (dquote ++ escape s ++ dquote)%string.

Definition string_of_Z (z : Z) : string :=
  DecimalString.NilZero.string_of_int (Z.to_int z).

Fixpoint dumps (v : pyval) : string :=
  match v with
  | PNone => "null"
  | PBool true => "true"
  | PBool false => "false"
  | PInt z => string_of_Z z
  | PStr s => quote s
  | PList l => ("[" ++ join ", " (map dumps l) ++ "]")%string
  | PDict d =>
      ("{" ++ join ", "
                (map (fun kv : string * pyval =>
                        let (k, x) := kv in
                        (quote k ++ ": " ++ dumps x)%string) d)
           ++ "}")%string
  end.

(** *** Rationals as booleans *)
Definition Qlt_bool (a b : Q) : bool := negb (Qle_bool b a).

(** *** Floats

    [fl z] is the double nearest to the rational [z], ties going to the
    even significand: with [2^e <= |z| < 2^(e+1)] the doubles around [z] are
    the multiples of [2^(e-52)], or of [2^-1074] below the normal range.
    The results of the operations modelled here stay far below the largest
    double, so overflow does not appear. *)
Definition pow2 (k : Z) : Q := Qpower 2 k.

(** The integer nearest to [m], the even one of two equally near. *)
Definition rne (m : Q) : Z :=
  let f := Qfloor m in
  match (m - inject_Z f ?= 1 # 2)%Q with
  | Lt => f
  | Gt => f + 1
  | Eq => if Z.even f then f else f + 1
  end.

(** The [e] with [2^e <= z < 2^(e+1)], for a positive [z]. *)
Definition exponent (z : Q) : Z :=
  let e := Z.log2 (Qnum z) - Z.log2 (Zpos (Qden z)) in
  if Qle_bool (pow2 e) z then e else e - 1.

Definition ulp_exponent (z : Q) : Z := Z.max (exponent z - 52) (-1074).

Definition round_pos (z : Q) : Q :=
  (inject_Z (rne (z * pow2 (- ulp_exponent z))) * pow2 (ulp_exponent z))%Q.

Definition fl (z : Q) : Q :=
  match Qnum z with
  | Z0 => 0%Q
  | Zpos _ => Qred (round_pos z)
  | Zneg _ => Qred (- round_pos (- z))
  end.

(** [x + y] and [x * y] on floats; [float(n)] for an [int]. *)
Definition fadd (x y : Q) : Q := fl (x + y).
Definition fmul (x y : Q) : Q := fl (x * y).
Definition float_of_int (n : Z) : Q := fl (inject_Z n).

End Py.

Import Py.

(** ** Session store ([services/session_service.py]) *)

Module SessionInfo.
(** [models/schemas.py], class [SessionInfo]. *)
Record t : Type := mk {
  session_id : string;
  user_id : string;
  created_at : Z;
  last_activity : Z;
  status : string;
  interaction_count : Z
}.
End SessionInfo.

Module SessionService.

(** One value of [active_sessions]: the dict built in [create_session].
    [created_at] and [last_activity] are kept as ISO-8601 strings and
    parsed with [datetime.fromisoformat] at every use; the model holds
    the instant they denote. *)
Record session_data : Type := mk_session {
  session_id : string;
  user_id : string;
  created_at : Z;
  last_activity : Z;
  user_data : dict pyval;
  context : dict pyval;
  interaction_count : Z;
  status : string
}.

(** The attributes of [SessionService] that the operations read.  The
    service is taken as initialised. *)
Record t : Type := mk {
  active_sessions : dict session_data;
  session_timeout : nat;          (* seconds *)
  max_sessions_per_user : nat
}.

(** [SessionService()] *)
Definition init : t :=
  {| active_sessions := []; session_timeout := 3600;
     max_sessions_per_user := 5 |}.

Definition with_sessions (svc : t) (d : dict session_data) : t :=
  {| active_sessions := d;
     session_timeout := session_timeout svc;
     max_sessions_per_user := max_sessions_per_user svc |}.

Record SessionResponse : Type := mk_response {
  success : bool;
  session_info : option SessionInfo.t
}.

Definition to_info (s : session_data) : SessionInfo.t :=
  {| SessionInfo.session_id := session_id s;
     SessionInfo.user_id := user_id s;
     SessionInfo.created_at := created_at s;
     SessionInfo.last_activity := last_activity s;
     SessionInfo.status := status s;
     SessionInfo.interaction_count := interaction_count s |}.

(** [(now - last_activity).total_seconds() > self.session_timeout] *)
Definition timed_out (svc : t) (now : Z) (s : session_data) : bool :=
  Z.of_nat (session_timeout svc) * 1000000 <? now - last_activity s.

(** [_cleanup_expired_sessions] *)
Definition _cleanup_expired_sessions (svc : t) (now : Z) : t :=
  let expired_sessions :=
    map fst (filter (fun kv => timed_out svc now (snd kv))
                    (active_sessions svc)) in
  with_sessions svc
    (fold_left (fun d sid => del sid d) expired_sessions
               (active_sessions svc)).

(** The sort key of [min] in [create_session]:
    [datetime.fromisoformat(self.active_sessions[sid]['created_at'])]. *)
Definition created_at_of (d : dict session_data) (sid : string) : Z :=
  match get sid d with
  | Some s => created_at s
  | None => 0
  end.

Definition user_sessions_of (d : dict session_data) (uid : string)
  : list string :=
  map fst (filter (fun kv => String.eqb (user_id (snd kv)) uid) d).

(** The eviction step of [create_session]. *)
Definition evict_oldest (svc : t) (uid : string)
  : result (dict session_data) :=
  let d := active_sessions svc in
  let user_sessions := user_sessions_of d uid in
  if (max_sessions_per_user svc <=? List.length user_sessions)%nat then
    (let* oldest_session := min_by (created_at_of d) user_sessions in
     Ok (del oldest_session d))%py
  else Ok d.

(** [create_session(user_id, user_data)]; [new_id] is [str(uuid.uuid4())]
    and [now] is [datetime.now()]. *)
Definition create_session (svc : t) (new_id : string) (now : Z)
    (uid : string) (udata : option (dict pyval)) : t * SessionResponse :=
  match evict_oldest svc uid with
  | Raise _ => (svc, {| success := false; session_info := None |})
  | Ok d =>
      let sdata :=
        {| session_id := new_id; user_id := uid;
           created_at := now; last_activity := now;
           user_data := match udata with Some u => u | None => [] end;
           context := []; interaction_count := 0;
           status := "active" |} in
      (with_sessions svc (set new_id sdata d),
       {| success := true; session_info := Some (to_info sdata) |})
  end.

(** [get_session(session_id)] *)
Definition get_session (svc : t) (now : Z) (sid : string)
  : t * option SessionInfo.t :=
  match get sid (active_sessions svc) with
  | None => (svc, None)
  | Some s =>
      if timed_out svc now s
      then (with_sessions svc (del sid (active_sessions svc)), None)
      else (svc, Some (to_info s))
  end.

(** [update_session_activity(session_id, context)].  The record is
    mutated in place, so the change is visible in [active_sessions]. *)
Definition update_session_activity (svc : t) (now : Z) (sid : string)
    (ctx : option (dict pyval)) : t * bool :=
  match get sid (active_sessions svc) with
  | None => (svc, false)
  | Some s =>
      let merged :=
        match ctx with
        | Some p => if truthy p then update (context s) p else context s
        | None => context s
        end in
      let s' :=
        {| session_id := session_id s; user_id := user_id s;
           created_at := created_at s; last_activity := now;
           user_data := user_data s; context := merged;
           interaction_count := interaction_count s + 1;
           status := status s |} in
      (with_sessions svc (set sid s' (active_sessions svc)), true)
  end.

(** [delete_session(session_id)] *)
Definition delete_session (svc : t) (sid : string) : t * bool :=
  if contains sid (active_sessions svc)
  then (with_sessions svc (del sid (active_sessions svc)), true)
  else (svc, false).

(** [get_session_context(session_id)] *)
Definition get_session_context (svc : t) (sid : string) : dict pyval :=
  match get sid (active_sessions svc) with
  | Some s => context s
  | None => []
  end.

End SessionService.


(** ** Memory store ([services/memory_service.py]) *)

Module MemoryEntry.
(** [models/schemas.py], class [MemoryEntry], and the dict [entry.dict()]
    that the store keeps.  In a [MemoryEntry] object the timestamp is a
    [datetime]; in a dict read from the snapshot it is a string. *)
Record t : Type := mk {
  id : string;
  user_id : string;
  session_id : option string;
  timestamp : pytime;
  interaction_type : string;
  data : dict pyval;
  context : dict pyval;
  relevance_score : Q
}.

(** A [MemoryEntry] object built from a stored dict: validation parses a
    string timestamp. *)
Definition of_dict (e : t) : t :=
  {| id := id e; user_id := user_id e; session_id := session_id e;
     timestamp := PDatetime (instant (timestamp e));
     interaction_type := interaction_type e; data := data e;
     context := context e; relevance_score := relevance_score e |}.
End MemoryEntry.

Module MemoryRequest.
(** [models/schemas.py], class [MemoryRequest]. *)
Record t : Type := mk {
  user_id : string;
  session_id : option string;
  interaction : dict pyval;
  context : option (dict pyval)
}.
End MemoryRequest.

Module MemoryService.

Definition entry : Type := MemoryEntry.t.

(** A tally keyed by hashable values ([common_entities]). *)
Definition tally : Type := list (pyval * nat).

(** The dict assigned to [user_memory['context_summary']]. *)
Record summary : Type := mk_summary {
  total_interactions : nat;
  recent_interactions : nat;
  most_common_interaction : option string;
  interaction_types : dict nat;
  recent_intents : list pyval;
  common_entities : tally;
  last_updated : Z;
  user_activity_level : string
}.

(** One value of [memory_storage].  [context_summary] is [None] for the
    empty dict the aggregate is created with. *)
Record user_memory : Type := mk_user_memory {
  user_id : string;
  created_at : Z;
  last_interaction : Z;
  entries : list entry;
  preferences : dict pyval;
  context_summary : option summary
}.

Record t : Type := mk {
  memory_storage : dict user_memory;
  max_memory_entries : nat;
  memory_retention_days : nat
}.

(** [MemoryService()] *)
Definition init : t :=
  {| memory_storage := []; max_memory_entries := 1000;
     memory_retention_days := 30 |}.

Definition with_storage (svc : t) (d : dict user_memory) : t :=
  {| memory_storage := d;
     max_memory_entries := max_memory_entries svc;
     memory_retention_days := memory_retention_days svc |}.

Definition with_entries (um : user_memory) (es : list entry) : user_memory :=
  {| user_id := user_id um; created_at := created_at um;
     last_interaction := last_interaction um; entries := es;
     preferences := preferences um;
     context_summary := context_summary um |}.

Definition with_summary (um : user_memory) (cs : summary) : user_memory :=
  {| user_id := user_id um; created_at := created_at um;
     last_interaction := last_interaction um; entries := entries um;
     preferences := preferences um;
     context_summary := Some cs |}.

Record MemoryResponse : Type := mk_response {
  success : bool;
  memory_entries : option (list MemoryEntry.t);
  response_summary : option summary
}.

Definition failure : MemoryResponse :=
  {| success := false; memory_entries := None; response_summary := None |}.

(** *** Relevance *)

(** [x in [s1, ..., sn]] for a value [x] and string literals. *)
Definition in_strings (x : pyval) (l : list string) : bool :=
  match x with
  | PStr s => existsb (String.eqb s) l
  | _ => false
  end.

Definition get_default (k : string) (default : pyval) (d : dict pyval)
  : pyval :=
  match get k d with
  | Some v => v
  | None => default
  end.

(** [_calculate_relevance_score(interaction)] *)
Definition _calculate_relevance_score (interaction : dict pyval)
  : result Q :=
  (let base_score := fl (1 # 2) in
   let interaction_type := get_default "type" (PStr EmptyString) interaction in
   let base_score :=
     if in_strings interaction_type ["purchase"; "support"; "form_fill"]
     then fadd base_score (fl (3 # 10))
     else if in_strings interaction_type ["question"; "search"]
     then fadd base_score (fl (2 # 10))
     else base_score in
   let* base_score :=
     match get "entities" interaction with
     | Some entities =>
         let* entity_count := len entities in
         Ok (fadd base_score
               (Qmin (fmul (float_of_int (Z.of_nat entity_count))
                           (fl (1 # 10)))
                     (fl (3 # 10))))
     | None => Ok base_score
     end in
   let* base_score :=
     match get "context" interaction with
     | Some c =>
         let* n := len c in
         Ok (if (2 <? n)%nat then fadd base_score (fl (1 # 10))
             else base_score)
     | None => Ok base_score
     end in
   Ok (Qmin base_score (fl 1)))%py.

(** *** Ordering entries *)

(** [(a.relevance_score, a.timestamp) < (b.relevance_score, b.timestamp)] *)
Definition key_lt (a b : entry) : bool :=
  Qlt_bool (MemoryEntry.relevance_score a) (MemoryEntry.relevance_score b)
  || (Qeq_bool (MemoryEntry.relevance_score a) (MemoryEntry.relevance_score b)
      && (instant (MemoryEntry.timestamp a)
          <? instant (MemoryEntry.timestamp b))).

(** Tuple comparison looks at the timestamps only when the scores are
    equal. *)
Definition key_comparable (a b : entry) : bool :=
  negb (Qeq_bool (MemoryEntry.relevance_score a)
                 (MemoryEntry.relevance_score b))
  || same_kind (MemoryEntry.timestamp a) (MemoryEntry.timestamp b).

Definition ts_lt (a b : entry) : bool :=
  instant (MemoryEntry.timestamp a) <? instant (MemoryEntry.timestamp b).

Definition ts_comparable (a b : entry) : bool :=
  same_kind (MemoryEntry.timestamp a) (MemoryEntry.timestamp b).

(** *** Context summary *)

Fixpoint filter_after (bound : Z) (es : list entry) : result (list entry) :=
  match es with
  | [] => Ok []
  | e :: r =>
      (let* t := fromisoformat (MemoryEntry.timestamp e) in
       let* r' := filter_after bound r in
       Ok (if bound <? t then e :: r' else r'))%py
  end.

(** [_calculate_activity_level(entries)] *)
Definition _calculate_activity_level (now : Z) (es : list entry)
  : result string :=
  match es with
  | [] => Ok "inactive"
  | _ :: _ =>
      (let week_ago := now - days 7 in
       let* recent_entries := filter_after week_ago es in
       let recent_count := List.length recent_entries in
       Ok (if (10 <=? recent_count)%nat then "very_active"
           else if (5 <=? recent_count)%nat then "active"
           else if (1 <=? recent_count)%nat then "moderate"
           else "low"))%py
  end.

(** [for x in v] on a value of type [Any]. *)
Definition iter (v : pyval) : result (list pyval) :=
  match v with
  | PList l => Ok l
  | PDict d => Ok (map (fun kv => PStr (fst kv)) d)
  | PStr s => Ok (map PStr (chars s))
  | PNone | PBool _ | PInt _ => Raise TypeError
  end.

(** Equality of dict keys: [True == 1] and [False == 0]. *)
Definition hash_eqb (a b : pyval) : bool :=
  match a, b with
  | PNone, PNone => true
  | PStr s, PStr u => String.eqb s u
  | PInt x, PInt y => x =? y
  | PBool x, PBool y => Bool.eqb x y
  | PBool x, PInt y | PInt y, PBool x => (if x then 1 else 0) =? y
  | _, _ => false
  end.

Definition hashable (v : pyval) : bool :=
  match v with
  | PList _ | PDict _ => false
  | _ => true
  end.

Fixpoint tally_incr (k : pyval) (c : tally) : tally :=
  match c with
  | [] => [(k, 1%nat)]
  | (k', n) :: r => if hash_eqb k k' then (k', S n) :: r
                    else (k', n) :: tally_incr k r
  end.

(** [common_entities[entity] = common_entities.get(entity, 0) + 1] for
    every element of [entities]. *)
Fixpoint count_entities (entities : list pyval) (c : tally) : result tally :=
  match entities with
  | [] => Ok c
  | x :: r => if hashable x then count_entities r (tally_incr x c)
              else Raise TypeError
  end.

Record scan : Type := mk_scan {
  scan_types : dict nat;
  scan_intents : list pyval;
  scan_entities : tally
}.

(** One round of the loop over [recent_entries]. *)
Definition scan_entry (acc : scan) (e : entry) : result scan :=
  (let t := MemoryEntry.interaction_type e in
   let types :=
     set t (match get t (scan_types acc) with Some n => n | None => 0%nat end
            + 1)%nat (scan_types acc) in
   let intents :=
     match get "intent" (MemoryEntry.data e) with
     | Some i => scan_intents acc ++ [i]
     | None => scan_intents acc
     end in
   let* entities :=
     iter (get_default "entity_types" (PList []) (MemoryEntry.context e)) in
   let* ents := count_entities entities (scan_entities acc) in
   Ok {| scan_types := types; scan_intents := intents;
         scan_entities := ents |})%py.

Fixpoint scan_entries (acc : scan) (es : list entry) : result scan :=
  match es with
  | [] => Ok acc
  | e :: r => (let* acc' := scan_entry acc e in scan_entries acc' r)%py
  end.

(** The summary that [_update_context_summary] builds from a non-empty
    entry list. *)
Definition build_summary (now : Z) (es : list entry) : result summary :=
  (let* by_time := sorted_checked ts_comparable ts_lt es in
   let recent_entries := firstn 20 by_time in
   let* acc :=
     scan_entries {| scan_types := []; scan_intents := [];
                     scan_entities := [] |} recent_entries in
   let most_common :=
     match scan_types acc with
     | [] => None
     | x :: r => Some (fst (max_from (fun kv => Z.of_nat (snd kv)) x r))
     end in
   let* level := _calculate_activity_level now es in
   Ok {| total_interactions := List.length es;
         recent_interactions := List.length recent_entries;
         most_common_interaction := most_common;
         interaction_types := scan_types acc;
         recent_intents := last_n 5 (scan_intents acc);
         common_entities :=
           firstn 5 (sorted_desc (fun a b => (snd a <? snd b)%nat)
                                 (scan_entities acc));
         last_updated := now;
         user_activity_level := level |})%py.

(** [_update_context_summary(user_id)]: any exception is logged and the
    stored summary stays as it was. *)
Definition _update_context_summary (svc : t) (now : Z) (uid : string) : t :=
  match get uid (memory_storage svc) with
  | None => svc
  | Some um =>
      match entries um with
      | [] => svc
      | _ :: _ =>
          match build_summary now (entries um) with
          | Ok cs =>
              with_storage svc (set uid (with_summary um cs)
                                    (memory_storage svc))
          | Raise _ => svc
          end
      end
  end.

(** *** Storing an interaction *)

(** The [MemoryEntry(...)] call of [store_interaction]: the relevance score
    is computed while the arguments are evaluated, then the model is
    validated ([interaction_type] is declared [str]). *)
Definition make_entry (new_id : string) (now : Z) (request : MemoryRequest.t)
  : result entry :=
  (let interaction := MemoryRequest.interaction request in
   let* score := _calculate_relevance_score interaction in
   let* itype :=
     match get_default "type" (PStr "unknown") interaction with
     | PStr s => Ok s
     | _ => Raise ValidationError
     end in
   Ok {| MemoryEntry.id := new_id;
         MemoryEntry.user_id := MemoryRequest.user_id request;
         MemoryEntry.session_id := MemoryRequest.session_id request;
         MemoryEntry.timestamp := PDatetime now;
         MemoryEntry.interaction_type := itype;
         MemoryEntry.data := interaction;
         MemoryEntry.context :=
           match MemoryRequest.context request with
           | Some c => c
           | None => []
           end;
         MemoryEntry.relevance_score := score |})%py.

Definition new_user_memory (uid : string) (now : Z) : user_memory :=
  {| user_id := uid; created_at := now; last_interaction := now;
     entries := []; preferences := []; context_summary := None |}.

(** The capacity check of [store_interaction]. *)
Definition truncate (cap : nat) (es : list entry) : result (list entry) :=
  if (cap <? List.length es)%nat then
    (let* s := sorted_checked key_comparable key_lt es in
     Ok (firstn cap s))%py
  else Ok es.

(** [store_interaction(request)]; [new_id] is [str(uuid.uuid4())] and [now]
    stands for the readings of [datetime.now()] during the call. *)
Definition store_interaction (svc : t) (new_id : string) (now : Z)
    (request : MemoryRequest.t) : t * MemoryResponse :=
  match make_entry new_id now request with
  | Raise _ => (svc, failure)
  | Ok e =>
      let uid := MemoryRequest.user_id request in
      let storage :=
        if contains uid (memory_storage svc) then memory_storage svc
        else set uid (new_user_memory uid now) (memory_storage svc) in
      match get uid storage with
      | None => (with_storage svc storage, failure)
      | Some um =>
          let um1 :=
            {| user_id := user_id um; created_at := created_at um;
               last_interaction := now; entries := entries um ++ [e];
               preferences := preferences um;
               context_summary := context_summary um |} in
          let storage1 := set uid um1 storage in
          match truncate (max_memory_entries svc) (entries um1) with
          | Raise _ => (with_storage svc storage1, failure)
          | Ok es =>
              let svc2 :=
                with_storage svc (set uid (with_entries um1 es) storage1) in
              let svc3 := _update_context_summary svc2 now uid in
              (svc3,
               {| success := true; memory_entries := Some [e];
                  response_summary :=
                    match get uid (memory_storage svc3) with
                    | Some um3 => context_summary um3
                    | None => None
                    end |})
          end
      end
  end.

(** *** Retention sweep *)

(** The loop of [_cleanup_old_entries].  An exception leaves the loop;
    the users handled before it stay as the loop left them. *)
Fixpoint cleanup_loop (cutoff_date : Z) (uids : list string)
    (storage : dict user_memory) : dict user_memory :=
  match uids with
  | [] => storage
  | uid :: rest =>
      match get uid storage with
      | None => storage
      | Some um =>
          match filter_after cutoff_date (entries um) with
          | Raise _ => storage
          | Ok es =>
              let storage1 := set uid (with_entries um es) storage in
              cleanup_loop cutoff_date rest
                (match es with
                 | [] => del uid storage1
                 | _ :: _ => storage1
                 end)
          end
      end
  end.

(** [_cleanup_old_entries()] *)
Definition _cleanup_old_entries (svc : t) (now : Z) : t :=
  let cutoff_date := now - days (memory_retention_days svc) in
  with_storage svc
    (cleanup_loop cutoff_date (keys (memory_storage svc))
                  (memory_storage svc)).

(** *** Search *)

Section Search.
(** [str.lower] *)
Variable lower : string -> string.

(** [if b: score += x] *)
Definition add_if (b : bool) (x : Q) (score : Q) : Q :=
  if b then fadd score x else score.

(** [_calculate_search_score(entry, query)] *)
Definition _calculate_search_score (e : entry) (query : string) : Q :=
  let data_text := lower (dumps (PDict (MemoryEntry.data e))) in
  let score := add_if (str_in query data_text) (fl 1) (fl 0) in
  let context_text := lower (dumps (PDict (MemoryEntry.context e))) in
  let score := add_if (str_in query context_text) (fl (1 # 2)) score in
  let score :=
    fold_left (fun score word =>
                 add_if (str_in word context_text) (fl (1 # 10))
                        (add_if (str_in word data_text) (fl (3 # 10)) score))
              (split query) score in
  fmul score (MemoryEntry.relevance_score e).

(** [search_user_memory(user_id, query, limit)] *)
Definition search_user_memory (svc : t) (uid : string) (query : string)
    (limit : Z) : MemoryResponse :=
  match get uid (memory_storage svc) with
  | None => {| success := true; memory_entries := Some [];
               response_summary := None |}
  | Some um =>
      let query_lower := lower query in
      let matching_entries :=
        filter (fun es => Qlt_bool 0 (snd es))
               (map (fun e => (e, _calculate_search_score e query_lower))
                    (entries um)) in
      let matching_entries :=
        slice_to limit
          (sorted_desc (fun a b => Qlt_bool (snd a) (snd b))
                       matching_entries) in
      {| success := true;
         memory_entries :=
           Some (map (fun es => MemoryEntry.of_dict (fst es))
                     matching_entries);
         response_summary := None |}
  end.
End Search.

End MemoryService.

(** ** Definitions used to state the properties *)

Module Scenario.
Import SessionService MemoryService.

(** *** Session store *)

Definition timeout_us (svc : SessionService.t) : Z :=
  Z.of_nat (session_timeout svc) * 1000000.

(** Three sessions of one user, the first created being the one used last. *)
Definition sample (sid : string) (created last : Z) : string * session_data :=
  (sid, {| session_id := sid;
           SessionService.user_id := "u1";
           SessionService.created_at := created;
           last_activity := last; user_data := []; context := [];
           interaction_count := 0; status := "active" |}).

Definition sample_service : SessionService.t :=
  {| active_sessions := [sample "a" 10 900; sample "b" 20 30;
                         sample "c" 40 50];
     session_timeout := 3600; max_sessions_per_user := 3 |}.


(** *** Relevance, in the words of the specification *)

Definition type_bonus (interaction : dict pyval) : Q :=
  let t := get_default "type" (PStr EmptyString) interaction in
  ((if in_strings t ["purchase"; "support"; "form_fill"] then 3 # 10 else 0)
   + (if in_strings t ["question"; "search"] then 2 # 10 else 0))%Q.

Definition entities_bonus (interaction : dict pyval) : Q :=
  match get "entities" interaction with
  | Some v =>
      match len v with
      | Ok n => Qmin (inject_Z (Z.of_nat n) * (1 # 10)) (3 # 10)
      | Raise _ => 0%Q
      end
  | None => 0%Q
  end.

Definition clamp01 (q : Q) : Q := Qmax 0 (Qmin q 1).

(** The score as C1 words it: the last bonus looks at the [context]
    argument of the call. *)
Definition claimed_relevance_score (request : MemoryRequest.t) : Q :=
  clamp01 ((1 # 2) + type_bonus (MemoryRequest.interaction request)
           + entities_bonus (MemoryRequest.interaction request)
           + match MemoryRequest.context request with
             | Some c => if (2 <? List.length c)%nat then 1 # 10 else 0
             | None => 0
             end)%Q.

(** The sum before the final clamp, with the last bonus read from the
    payload's own [context] key, which is what
    [_calculate_relevance_score] looks at. *)
Definition raw_score (interaction : dict pyval) : Q :=
  ((1 # 2) + type_bonus interaction + entities_bonus interaction
   + match get "context" interaction with
     | Some c =>
         match len c with
         | Ok n => if (2 <? n)%nat then 1 # 10 else 0
         | Raise _ => 0
         end
     | None => 0
     end)%Q.

Definition payload_relevance_score (interaction : dict pyval) : Q :=
  clamp01 (raw_score interaction).

Definition sized (v : pyval) : bool :=
  match len v with
  | Ok _ => true
  | Raise _ => false
  end.

(** Payloads on which [store_interaction] builds an entry: [type], when
    present, is a string; [entities] and [context], when present, have a
    length. *)
Definition payload_ok (interaction : dict pyval) : bool :=
  match get "type" interaction with
  | Some (PStr _) | None => true
  | Some _ => false
  end
  && match get "entities" interaction with
     | Some v => sized v
     | None => true
     end
  && match get "context" interaction with
     | Some v => sized v
     | None => true
     end.

(** *** Sequences of store calls *)

Record call : Type := mk_call {
  call_id : string;
  call_time : Z;
  call_request : MemoryRequest.t
}.

Definition store_call (svc : MemoryService.t) (c : call) : MemoryService.t :=
  fst (store_interaction svc (call_id c) (call_time c) (call_request c)).

Definition store_all (svc : MemoryService.t) (calls : list call)
  : MemoryService.t :=
  fold_left store_call calls svc.

(** The entries the calls create, in call order. *)
Definition created (calls : list call) : list entry :=
  flat_map (fun c =>
              match make_entry (call_id c) (call_time c) (call_request c) with
              | Ok e => [e]
              | Raise _ => []
              end) calls.

Definition entries_of (svc : MemoryService.t) (uid : string) : list entry :=
  match get uid (memory_storage svc) with
  | Some um => entries um
  | None => []
  end.

(** Every stored score lies between 0.5 and 1. *)
Definition scores_in_range (svc : MemoryService.t) : Prop :=
  forall uid e, In e (entries_of svc uid) ->
                ((1 # 2) <= MemoryEntry.relevance_score e <= 1)%Q.

Definition summary_of (svc : MemoryService.t) (uid : string)
  : option summary :=
  match get uid (memory_storage svc) with
  | Some um => context_summary um
  | None => None
  end.

Definition is_iso (e : entry) : bool :=
  match MemoryEntry.timestamp e with
  | PIsoStr _ => true
  | PDatetime _ => false
  end.

Definition is_datetime (e : entry) : bool :=
  match MemoryEntry.timestamp e with
  | PIsoStr _ => false
  | PDatetime _ => true
  end.

(** [a] does not rank below [b] under (relevance, timestamp). *)
Definition key_ge : entry -> entry -> Prop := not_below key_lt.



(** *** Snapshots *)

(** An entry as it comes back from the snapshot file. *)
Definition as_loaded (e : entry) : entry :=
  {| MemoryEntry.id := MemoryEntry.id e;
     MemoryEntry.user_id := MemoryEntry.user_id e;
     MemoryEntry.session_id := MemoryEntry.session_id e;
     MemoryEntry.timestamp := PIsoStr (instant (MemoryEntry.timestamp e));
     MemoryEntry.interaction_type := MemoryEntry.interaction_type e;
     MemoryEntry.data := MemoryEntry.data e;
     MemoryEntry.context := MemoryEntry.context e;
     MemoryEntry.relevance_score := MemoryEntry.relevance_score e |}.

(** A storage as [_load_memory_from_file] leaves it: every timestamp is a
    string. *)
Definition loaded (storage : dict user_memory) : Prop :=
  forall uid um e,
    get uid storage = Some um -> In e (entries um) -> is_iso e = true.

(** The entry is later than the cut-off date. *)
Definition younger (cutoff_date : Z) (e : entry) : bool :=
  cutoff_date <? instant (MemoryEntry.timestamp e).

(** What the retention sweep leaves of one aggregate. *)
Definition swept (cutoff_date : Z) (um : user_memory) : option user_memory :=
  match filter (younger cutoff_date) (entries um) with
  | [] => None
  | e :: r => Some (with_entries um (e :: r))
  end.

Definition loadedb (storage : dict user_memory) : bool :=
  forallb (fun kv => forallb is_iso (entries (snd kv))) storage.

(** *** Search *)

(** Some part of the query occurs in the serialised payload or context,
    lower-cased by [lower]. *)
Definition matches (lower : string -> string) (e : entry) (query : string)
  : bool :=
  let data_text := lower (dumps (PDict (MemoryEntry.data e))) in
  let context_text := lower (dumps (PDict (MemoryEntry.context e))) in
  str_in query data_text || str_in query context_text
  || existsb (fun w => str_in w data_text || str_in w context_text)
             (split query).

(** *** Sample data *)

Definition request (uid ty intent : string) (ctx : option (dict pyval))
  : MemoryRequest.t :=
  {| MemoryRequest.user_id := uid; MemoryRequest.session_id := None;
     MemoryRequest.interaction :=
       [("type", PStr ty); ("intent", PStr intent)];
     MemoryRequest.context := ctx |}.

Definition three_keys : dict pyval :=
  [("page", PStr "home"); ("lang", PStr "fr"); ("device", PStr "phone")].

(** The payload of the specification's worked example, carrying its own
    [context] entry. *)
Definition rich_request : MemoryRequest.t :=
  {| MemoryRequest.user_id := "u1"; MemoryRequest.session_id := Some "s1";
     MemoryRequest.interaction :=
       [("type", PStr "purchase");
        ("entities", PList [PStr "a"; PStr "b"; PStr "c"]);
        ("context", PDict three_keys)];
     MemoryRequest.context := None |}.

(** A snapshot read on day 100: [u1] has an entry of day 69 (31 days old)
    and one of day 71 (29 days old), [u2] has an entry of day 69 only. *)
Definition loaded_entry (eid uid : string) (day : nat) : entry :=
  {| MemoryEntry.id := eid; MemoryEntry.user_id := uid;
     MemoryEntry.session_id := None;
     MemoryEntry.timestamp := PIsoStr (days day);
     MemoryEntry.interaction_type := "other";
     MemoryEntry.data := [("type", PStr "other")];
     MemoryEntry.context := [];
     MemoryEntry.relevance_score := (1 # 2)%Q |}.

Definition loaded_user (uid : string) (es : list entry)
  : string * user_memory :=
  (uid, {| user_id := uid; created_at := 0; last_interaction := days 71;
           entries := es; preferences := []; context_summary := None |}).

Definition snapshot_service : MemoryService.t :=
  with_storage MemoryService.init
    [loaded_user "u1" [loaded_entry "e1" "u1" 69; loaded_entry "e2" "u1" 71];
     loaded_user "u2" [loaded_entry "e3" "u2" 69]].

Definition intent_of (e : entry) : option pyval :=
  get "intent" (MemoryEntry.data e).

Definition recent_intents_of (r : result summary) : option (list pyval) :=
  match r with
  | Ok cs => Some (recent_intents cs)
  | Raise _ => None
  end.

(** A service that holds four entries per user, and six calls of mixed
    relevance. *)
Definition small_service : MemoryService.t :=
  {| memory_storage := []; max_memory_entries := 4;
     memory_retention_days := 30 |}.

Definition ranked_calls : list call :=
  [mk_call "e1" 1000 (request "u1" "other" "i1" None);
   mk_call "e2" 2000 (request "u1" "purchase" "i2" None);
   mk_call "e3" 3000 (request "u1" "question" "i3" None);
   mk_call "e4" 4000 (request "u1" "other" "i4" None);
   mk_call "e5" 5000 (request "u1" "purchase" "i5" None);
   mk_call "e6" 6000 (request "u1" "other" "i6" None)].

(** A snapshot at capacity: a thousand purchases of [u1], the k-th at
    millisecond k with intent [ik]. *)
Definition bulk_entry (k : nat) : entry :=
  {| MemoryEntry.id := ("b" ++ string_of_Z (Z.of_nat k))%string;
     MemoryEntry.user_id := "u1";
     MemoryEntry.session_id := None;
     MemoryEntry.timestamp := PIsoStr (Z.of_nat k * 1000);
     MemoryEntry.interaction_type := "purchase";
     MemoryEntry.data :=
       [("type", PStr "purchase");
        ("intent", PStr ("i" ++ string_of_Z (Z.of_nat k))%string)];
     MemoryEntry.context := [];
     MemoryEntry.relevance_score := (8 # 10)%Q |}.

Definition full_snapshot : MemoryService.t :=
  with_storage MemoryService.init
    [("u1", {| user_id := "u1"; created_at := 0;
               last_interaction := 1000000;
               entries := map bulk_entry (seq 1 1000);
               preferences := []; context_summary := None |})].

(** A question with one entity: its score, [0.5 + 0.2 + 0.1], is
    [0.7999999999999999], just below the [0.8] of a purchase. *)
Definition near_request : MemoryRequest.t :=
  {| MemoryRequest.user_id := "u1"; MemoryRequest.session_id := None;
     MemoryRequest.interaction :=
       [("type", PStr "question"); ("entities", PList [PStr "a"])];
     MemoryRequest.context := None |}.

(** A service that holds one entry per user; a purchase, then the
    question. *)
Definition unit_service : MemoryService.t :=
  {| memory_storage := []; max_memory_entries := 1;
     memory_retention_days := 30 |}.

Definition near_calls : list call :=
  [mk_call "e1" 1000 (request "u1" "purchase" "i1" None);
   mk_call "e2" 2000 near_request].

(** A snapshot that is full at a capacity of four with purchases, as the
    code scored them. *)
Definition purchase_entry (eid : string) (day : nat) : entry :=
  {| MemoryEntry.id := eid; MemoryEntry.user_id := "u1";
     MemoryEntry.session_id := None;
     MemoryEntry.timestamp := PIsoStr (days day);
     MemoryEntry.interaction_type := "purchase";
     MemoryEntry.data := [("type", PStr "purchase")];
     MemoryEntry.context := [];
     MemoryEntry.relevance_score := fadd (fl (1 # 2)) (fl (3 # 10)) |}.

Definition purchase_snapshot : MemoryService.t :=
  {| memory_storage :=
       [loaded_user "u1" [purchase_entry "e1" 69; purchase_entry "e2" 70;
                          purchase_entry "e3" 71; purchase_entry "e4" 72]];
     max_memory_entries := 4; memory_retention_days := 30 |}.

Definition six_calls : list call :=
  [mk_call "e1" 1000 (request "u1" "other" "i1" None);
   mk_call "e2" 2000 (request "u1" "other" "i2" None);
   mk_call "e3" 3000 (request "u1" "other" "i3" None);
   mk_call "e4" 4000 (request "u1" "other" "i4" None);
   mk_call "e5" 5000 (request "u1" "other" "i5" None);
   mk_call "e6" 6000 (request "u1" "other" "i6" None)].

End Scenario.

(** ** Further operations of the two services, and their HTTP routes *)

Module Http.
(** The outcome of a route: the response body, or the status code of the
    [HTTPException] (or of the parameter validation) that ended it. *)
Inductive reply (A : Type) : Type :=
| Body (a : A)
| Error (code : nat).
Arguments Body {A} a.
Arguments Error {A} code.

End Http.

Module SessionOps.
Import SessionService Http.

(** [get_user_sessions(user_id)] *)
Definition get_user_sessions (svc : SessionService.t) (now : Z)
    (uid : string) : list SessionInfo.t :=
  map (fun kv => to_info (snd kv))
      (filter (fun kv => String.eqb (user_id (snd kv)) uid
                         && negb (timed_out svc now (snd kv)))
              (active_sessions svc)).

(** *** Runs of the service *)

Inductive op : Type :=
| Create (new_id : string) (now : Z) (uid : string)
         (udata : option (dict pyval))
| Get (now : Z) (sid : string)
| Update (now : Z) (sid : string) (ctx : option (dict pyval))
| Delete (sid : string)
| Sweep (now : Z).

Definition step (svc : SessionService.t) (o : op) : SessionService.t :=
  match o with
  | Create new_id now uid udata =>
      fst (create_session svc new_id now uid udata)
  | Get now sid => fst (get_session svc now sid)
  | Update now sid ctx => fst (update_session_activity svc now sid ctx)
  | Delete sid => fst (delete_session svc sid)
  | Sweep now => _cleanup_expired_sessions svc now
  end.

Definition run (svc : SessionService.t) (ops : list op) : SessionService.t :=
  fold_left step ops svc.

(** The identifiers [uuid4] produced during a run. *)
Definition created_ids (ops : list op) : list string :=
  flat_map (fun o => match o with
                     | Create new_id _ _ _ => [new_id]
                     | _ => []
                     end) ops.

Definition op_time (o : op) : option Z :=
  match o with
  | Create _ now _ _ | Get now _ | Update now _ _ | Sweep now => Some now
  | Delete _ => None
  end.

(** The clock readings of the run never go back, starting from [t]. *)
Fixpoint clock_from (t : Z) (ops : list op) : Prop :=
  match ops with
  | [] => True
  | o :: r =>
      match op_time o with
      | Some now => t <= now /\ clock_from now r
      | None => clock_from t r
      end
  end.

(** What every stored session record satisfies. *)
Definition record_ok (sid : string) (s : session_data) : Prop :=
  session_id s = sid
  /\ status s = "active"
  /\ 0 <= interaction_count s.

Definition times_ok (t : Z) (s : session_data) : Prop :=
  created_at s <= last_activity s /\ last_activity s <= t.

(** *** Routes of [api/v1/sessions.py] *)

(** [models/schemas.py], class [SessionRequest]. *)
Record SessionRequest : Type := mk_request {
  request_user_id : string;
  request_user_data : option (dict pyval);
  request_context : option (dict pyval)
}.

(** [POST /create]; [now] is the clock reading of [create_session], [now']
    that of [update_session_activity]. *)
Definition route_create_session (svc : SessionService.t) (new_id : string)
    (now now' : Z) (request : SessionRequest)
  : SessionService.t * reply SessionResponse :=
  if blank (request_user_id request) then (svc, Error 400)
  else
    let (svc1, response) :=
      create_session svc new_id now (request_user_id request)
                     (request_user_data request) in
    let svc2 :=
      match session_info response, request_context request with
      | Some info, Some c =>
          if success response && truthy c
          then fst (update_session_activity svc1 now'
                      (SessionInfo.session_id info) (Some c))
          else svc1
      | _, _ => svc1
      end in
    (svc2, Body response).

(** [GET /info/{session_id}] *)
Definition route_get_session_info (svc : SessionService.t) (now : Z)
    (sid : string) : SessionService.t * reply SessionResponse :=
  let (svc1, session_info) := get_session svc now sid in
  match session_info with
  | None => (svc1, Error 404)
  | Some info =>
      (svc1, Body {| success := true; session_info := Some info |})
  end.

(** [DELETE /delete/{session_id}] *)
Definition route_delete_session (svc : SessionService.t) (sid : string)
  : SessionService.t * reply SessionResponse :=
  let (svc1, success) := delete_session svc sid in
  if success
  then (svc1, Body {| SessionService.success := true; session_info := None |})
  else (svc1, Error 404).

(** The number of sessions the store holds for a user. *)
Definition session_count (svc : SessionService.t) (uid : string) : nat :=
  List.length (user_sessions_of (active_sessions svc) uid).

(** What a run keeps true of the service: distinct keys, all produced by
    [uuid4] before, well-formed records, the quota for every user, and the
    configuration of [init]. *)
Definition run_invariant (used : list string) (svc : SessionService.t)
  : Prop :=
  wf (active_sessions svc)
  /\ incl (keys (active_sessions svc)) used
  /\ (forall sid s, get sid (active_sessions svc) = Some s ->
                    record_ok sid s)
  /\ (forall uid, (session_count svc uid <= max_sessions_per_user svc)%nat)
  /\ max_sessions_per_user svc = max_sessions_per_user SessionService.init
  /\ session_timeout svc = session_timeout SessionService.init.

(** No record is later than the clock reading [t]. *)
Definition clock_invariant (t : Z) (svc : SessionService.t) : Prop :=
  forall sid s, get sid (active_sessions svc) = Some s -> times_ok t s.

(** A run: six creations for one user, then an update, a read, a deletion
    and a sweep. *)
Definition sample_run : list op :=
  [Create "s1" 1000 "u1" None; Create "s2" 2000 "u1" None;
   Create "s3" 3000 "u1" None; Create "s4" 4000 "u1" None;
   Create "s5" 5000 "u1" None; Create "s6" 6000 "u1" None;
   Update 7000 "s3" (Some [("topic", PStr "billing")]);
   Get 8000 "s2"; Delete "s4"; Sweep 3600003500].

End SessionOps.

Module MemoryOps.
Import MemoryService Http.

(** The session filter of [get_user_context]: an absent or empty
    [session_id] keeps every entry. *)
Definition candidates (session_id : option string) (es : list entry)
  : list entry :=
  match session_id with
  | Some (String c r) =>
      filter (fun e =>
                match MemoryEntry.session_id e with
                | Some s => String.eqb s (String c r)
                | None => false
                end) es
  | Some EmptyString | None => es
  end.

(** [get_user_context(user_id, session_id, limit)] *)
Definition get_user_context (svc : MemoryService.t) (uid : string)
    (session_id : option string) (limit : Z) : MemoryResponse :=
  match get uid (memory_storage svc) with
  | None => {| success := true; memory_entries := Some [];
               response_summary := None |}
  | Some um =>
      let entries := candidates session_id (entries um) in
      match sorted_checked key_comparable key_lt entries with
      | Raise _ => failure
      | Ok sorted =>
          {| success := true;
             memory_entries :=
               Some (map MemoryEntry.of_dict (slice_to limit sorted));
             response_summary := context_summary um |}
      end
  end.

(** [update_user_preferences(user_id, preferences)] *)
Definition update_user_preferences (svc : MemoryService.t) (now : Z)
    (uid : string) (prefs : dict pyval) : MemoryService.t * MemoryResponse :=
  let storage :=
    if contains uid (memory_storage svc) then memory_storage svc
    else set uid (new_user_memory uid now) (memory_storage svc) in
  match get uid storage with
  | None => (with_storage svc storage, failure)
  | Some um =>
      let um' :=
        {| user_id := user_id um; created_at := created_at um;
           last_interaction := now; entries := entries um;
           preferences := update (preferences um) prefs;
           context_summary := context_summary um |} in
      (with_storage svc (set uid um' storage),
       {| success := true; memory_entries := None;
          response_summary := None |})
  end.

(** [get_user_preferences(user_id)] *)
Definition get_user_preferences (svc : MemoryService.t) (uid : string)
  : dict pyval :=
  match get uid (memory_storage svc) with
  | Some um => preferences um
  | None => []
  end.

(** [cleanup_user_data(user_id)] *)
Definition cleanup_user_data (svc : MemoryService.t) (uid : string)
  : MemoryService.t * MemoryResponse :=
  let ok := {| success := true; memory_entries := None;
               response_summary := None |} in
  if contains uid (memory_storage svc)
  then (with_storage svc (del uid (memory_storage svc)), ok)
  else (svc, ok).

(** The counters of [get_memory_stats()].  The rounded average, the size of
    the snapshot file and the time stamp of the report are left out. *)
Record stats : Type := mk_stats {
  total_users : nat;
  total_entries : nat;
  active_users_last_week : nat
}.

Definition get_memory_stats (svc : MemoryService.t) (now : Z) : stats :=
  let week_ago := now - days 7 in
  {| total_users := List.length (memory_storage svc);
     total_entries :=
       list_sum (map (fun kv => List.length (entries (snd kv)))
                     (memory_storage svc));
     active_users_last_week :=
       List.length
         (filter (fun kv => week_ago <? last_interaction (snd kv))
                 (memory_storage svc)) |}.

(** *** Routes of [api/v1/memory.py] *)

(** [POST /store] *)
Definition route_store_interaction (svc : MemoryService.t) (new_id : string)
    (now : Z) (request : MemoryRequest.t)
  : MemoryService.t * reply MemoryResponse :=
  match MemoryRequest.user_id request with
  | EmptyString => (svc, Error 400)
  | String _ _ =>
      if truthy (MemoryRequest.interaction request)
      then let (svc1, response) := store_interaction svc new_id now request in
           (svc1, Body response)
      else (svc, Error 400)
  end.

(** [GET /search/{user_id}]; the bounds on [limit] are those of its
    [Query(5, ge=1, le=20)] declaration. *)
Definition route_search_user_memory (lower : string -> string)
    (svc : MemoryService.t) (uid : string) (query : string) (limit : Z)
  : reply MemoryResponse :=
  if (limit <? 1) || (20 <? limit) then Error 422
  else if (str_len (strip query) <? 2)%nat then Error 400
  else Body (search_user_memory lower svc uid query limit).

(** [GET /context/{user_id}], with [limit] declared
    [Query(10, ge=1, le=50)]. *)
Definition route_get_user_context (svc : MemoryService.t) (uid : string)
    (session_id : option string) (limit : Z) : reply MemoryResponse :=
  if (limit <? 1) || (50 <? limit) then Error 422
  else Body (get_user_context svc uid session_id limit).

(** [PUT /preferences/{user_id}] *)
Definition route_update_user_preferences (svc : MemoryService.t) (now : Z)
    (uid : string) (prefs : dict pyval)
  : MemoryService.t * reply MemoryResponse :=
  if truthy prefs
  then let (svc1, response) := update_user_preferences svc now uid prefs in
       (svc1, Body response)
  else (svc, Error 400).

(** *** Definitions used to state the properties *)

(** All pairs of the list can be ordered by (relevance, timestamp). *)
Definition rankable (es : list entry) : bool :=
  forallb (fun a => forallb (key_comparable a) es) es.

(** The search score attached to an entry, as [search_user_memory] does. *)
Definition scored (lower : string -> string) (query_lower : string)
    (e : entry) : entry * Q :=
  (e, _calculate_search_score lower e query_lower).

Definition score_lt (a b : entry * Q) : bool := Qlt_bool (snd a) (snd b).

(** What every run of stores that starts from the empty service keeps:
    each user's entries carry [datetime] timestamps, respect the capacity,
    and no context summary has been stored. *)
Definition process_invariant (svc : MemoryService.t) : Prop :=
  max_memory_entries svc = max_memory_entries MemoryService.init
  /\ wf (memory_storage svc)
  /\ forall uid um,
       get uid (memory_storage svc) = Some um ->
       forallb Scenario.is_datetime (entries um) = true
       /\ (List.length (entries um) <= max_memory_entries svc)%nat
       /\ context_summary um = None.

(** A snapshot that is full at a capacity of four. *)
Definition small_snapshot : MemoryService.t :=
  with_storage Scenario.small_service
    [Scenario.loaded_user "u1"
       [Scenario.loaded_entry "e1" "u1" 69; Scenario.loaded_entry "e2" "u1" 70;
        Scenario.loaded_entry "e3" "u1" 71; Scenario.loaded_entry "e4" "u1" 72]].

(** The aggregate a store call works on, and what it writes back before
    the capacity check. *)
Definition aggregate_of (svc : MemoryService.t) (uid : string) (now : Z)
  : user_memory :=
  match get uid (memory_storage svc) with
  | Some um => um
  | None => new_user_memory uid now
  end.

Definition appended (um : user_memory) (now : Z) (e : entry) : user_memory :=
  {| user_id := user_id um; created_at := created_at um;
     last_interaction := now; entries := entries um ++ [e];
     preferences := preferences um;
     context_summary := context_summary um |}.

End MemoryOps.

(** ** Facts about the Python layer *)

Module PyFacts.

Section DictFacts.
Context {V : Type}.
Implicit Types (d p : dict V) (k : string) (v : V).

Lemma get_none_iff k d : get k d = None <-> ~ In k (keys d).
Proof.
  induction d as [|[k' v'] r IH]; simpl.
  - tauto.
  - destruct (String.eqb_spec k k') as [->|Hne].
    + split; [discriminate | intros H; exfalso; apply H; now left].
    + rewrite IH. split; intros H; [intros [E|E]; [congruence | tauto] | tauto].
Qed.

Lemma get_some_in k v d : get k d = Some v -> In (k, v) d.
Proof.
  induction d as [|[k' v'] r IH]; simpl; [discriminate|].
  destruct (String.eqb_spec k k') as [->|Hne].
  - intros [= ->]. now left.
  - intros H. right. auto.
Qed.

Lemma in_get_some k v d : wf d -> In (k, v) d -> get k d = Some v.
Proof.
  unfold wf. induction d as [|[k' v'] r IH]; simpl; [tauto|].
  intros Hnd [E|Hin].
  - injection E as -> ->. now rewrite String.eqb_refl.
  - inversion Hnd as [|? ? Hnotin Hnd']; subst.
    destruct (String.eqb_spec k k') as [->|Hne].
    + exfalso. apply Hnotin. change k' with (fst (k', v)). now apply in_map.
    + auto.
Qed.

Lemma get_set_eq k v d : get k (set k v d) = Some v.
Proof.
  induction d as [|[k' v'] r IH]; simpl.
  - now rewrite String.eqb_refl.
  - destruct (String.eqb_spec k k') as [->|Hne]; simpl.
    + now rewrite String.eqb_refl.
    + destruct (String.eqb_spec k k'); [contradiction | exact IH].
Qed.

Lemma get_set_neq k k' v d : k <> k' -> get k' (set k v d) = get k' d.
Proof.
  intros Hne. induction d as [|[k0 v0] r IH]; simpl.
  - destruct (String.eqb_spec k' k); [congruence | reflexivity].
  - destruct (String.eqb_spec k k0) as [->|Hne0]; simpl.
    + destruct (String.eqb_spec k' k0); [congruence | reflexivity].
    + now rewrite IH.
Qed.

Lemma get_del_neq k k' d : k <> k' -> get k' (del k d) = get k' d.
Proof.
  intros Hne. induction d as [|[k0 v0] r IH]; simpl; [reflexivity|].
  destruct (String.eqb_spec k k0) as [->|Hne0]; simpl.
  - destruct (String.eqb_spec k' k0); [congruence | reflexivity].
  - now rewrite IH.
Qed.

Lemma keys_del_incl k d : incl (keys (del k d)) (keys d).
Proof.
  induction d as [|[k0 v0] r IH]; simpl; [apply incl_refl|].
  destruct (String.eqb k k0); simpl.
  - apply incl_tl, incl_refl.
  - intros x [E|Hin]; [now left | right; now apply IH].
Qed.

Lemma wf_del k d : wf d -> wf (del k d).
Proof.
  unfold wf. induction d as [|[k0 v0] r IH]; simpl; [auto|].
  intros Hnd. inversion Hnd as [|? ? Hnotin Hnd']; subst.
  destruct (String.eqb k k0); simpl; [assumption|].
  constructor; [|auto].
  intros Hin. apply Hnotin. now apply (keys_del_incl k r).
Qed.

Lemma get_del_eq k d : wf d -> get k (del k d) = None.
Proof.
  unfold wf. induction d as [|[k0 v0] r IH]; simpl; [reflexivity|].
  intros Hnd. inversion Hnd as [|? ? Hnotin Hnd']; subst.
  destruct (String.eqb_spec k k0) as [->|Hne]; simpl.
  - now apply get_none_iff.
  - destruct (String.eqb_spec k k0); [contradiction | auto].
Qed.

Lemma keys_set k v d :
  keys (set k v d) = if contains k d then keys d else keys d ++ [k].
Proof.
  unfold contains. induction d as [|[k0 v0] r IH]; simpl; [reflexivity|].
  destruct (String.eqb_spec k k0) as [->|Hne]; simpl; [reflexivity|].
  rewrite IH. now destruct (get k r).
Qed.

Lemma wf_set k v d : wf d -> wf (set k v d).
Proof.
  unfold wf. intros Hnd. rewrite keys_set. unfold contains.
  destruct (get k d) eqn:E; [assumption|].
  apply get_none_iff in E.
  apply NoDup_rev in Hnd. rewrite <- (rev_involutive (keys d ++ [k])).
  apply NoDup_rev. rewrite rev_app_distr. simpl.
  constructor; [|assumption]. now rewrite <- in_rev.
Qed.

Lemma length_set k v d :
  List.length (set k v d)
  = if contains k d then List.length d else S (List.length d).
Proof.
  unfold contains. induction d as [|[k0 v0] r IH]; simpl; [reflexivity|].
  destruct (String.eqb_spec k k0) as [->|Hne]; simpl; [reflexivity|].
  rewrite IH. now destruct (get k r).
Qed.

Lemma length_del k d :
  contains k d = true -> S (List.length (del k d)) = List.length d.
Proof.
  unfold contains. induction d as [|[k0 v0] r IH]; simpl; [discriminate|].
  destruct (String.eqb_spec k k0) as [->|Hne]; simpl; [reflexivity|].
  intros H. now rewrite IH.
Qed.

(** [d.update(p)]: the keys of the patch win, the other keys stay. *)
Lemma get_update k d p :
  wf p ->
  get k (update d p) = match get k p with
                       | Some v => Some v
                       | None => get k d
                       end.
Proof.
  unfold update, wf. revert d.
  induction p as [|[k1 v1] r IH]; intros d Hnd; simpl; [reflexivity|].
  inversion Hnd as [|? ? Hnotin Hnd']; subst.
  rewrite IH by assumption.
  destruct (String.eqb_spec k k1) as [->|Hne].
  - apply get_none_iff in Hnotin. rewrite Hnotin. apply get_set_eq.
  - destruct (get k r); [reflexivity|].
    apply get_set_neq. congruence.
Qed.
End DictFacts.

(** [min] returns an element of the list whose key is least. *)
Lemma min_from_spec {A : Type} (key : A -> Z) (l : list A) (best : A) :
  In (min_from key best l) (best :: l)
  /\ forall y, In y (best :: l) -> key (min_from key best l) <= key y.
Proof.
  revert best. induction l as [|y r IH]; intros best; simpl.
  - split; [now left | intros y [<-|[]]; lia].
  - destruct (Z.ltb_spec (key y) (key best)) as [Hlt|Hge].
    + destruct (IH y) as [Hin Hmin]. split.
      * simpl in Hin. tauto.
      * intros z [<-|Hz]; [|now apply Hmin].
        specialize (Hmin y (or_introl eq_refl)). lia.
    + destruct (IH best) as [Hin Hmin]. split.
      * simpl in Hin. tauto.
      * intros z [<-|[<-|Hz]].
        -- apply Hmin. now left.
        -- specialize (Hmin best (or_introl eq_refl)). lia.
        -- apply Hmin. now right.
Qed.

(** *** Prefixes and suffixes *)

Lemma in_firstn {A : Type} (n : nat) (l : list A) (x : A) :
  In x (firstn n l) -> In x l.
Proof.
  intros H. rewrite <- (firstn_skipn n l). apply in_or_app. now left.
Qed.

Lemma in_skipn {A : Type} (n : nat) (l : list A) (x : A) :
  In x (skipn n l) -> In x l.
Proof.
  intros H. rewrite <- (firstn_skipn n l). apply in_or_app. now right.
Qed.

(** *** Stable descending sort *)

Section SortFacts.
Context {A : Type} (lt : A -> A -> bool).

Lemma insert_desc_perm x l : Permutation (x :: l) (insert_desc lt x l).
Proof.
  induction l as [|y r IH]; simpl; [apply Permutation_refl|].
  destruct (lt x y); [|apply Permutation_refl].
  apply perm_trans with (y :: x :: r); [apply perm_swap|].
  now apply perm_skip.
Qed.

Lemma sorted_desc_perm l : Permutation l (sorted_desc lt l).
Proof.
  induction l as [|x r IH]; simpl; [apply perm_nil|].
  apply perm_trans with (x :: sorted_desc lt r);
    [now apply perm_skip | apply insert_desc_perm].
Qed.

Lemma sorted_desc_length l : List.length (sorted_desc lt l) = List.length l.
Proof. symmetry. apply Permutation_length, sorted_desc_perm. Qed.

Hypothesis lt_asym : forall x y, lt x y = true -> lt y x = false.
Hypothesis ge_trans :
  forall x y z, lt x y = false -> lt y z = false -> lt x z = false.

Lemma insert_desc_sorted x l :
  StronglySorted (not_below lt) l ->
  StronglySorted (not_below lt) (insert_desc lt x l).
Proof.
  induction l as [|y r IH]; intros Hs; simpl.
  - repeat constructor.
  - apply StronglySorted_inv in Hs as [Hr Hy].
    destruct (lt x y) eqn:E.
    + constructor; [auto|].
      apply (Permutation_Forall (insert_desc_perm x r)).
      constructor; [now apply lt_asym | assumption].
    + constructor; [now constructor|].
      constructor; [exact E|].
      apply Forall_impl with (P := not_below lt y); [|assumption].
      intros z Hz. now apply ge_trans with y.
Qed.

Lemma sorted_desc_sorted l : StronglySorted (not_below lt) (sorted_desc lt l).
Proof.
  induction l as [|x r IH]; simpl; [constructor|].
  now apply insert_desc_sorted.
Qed.

(** In a descending list every element of a prefix ranks at least as high
    as every element after it. *)
Lemma sorted_prefix_ge l n k d :
  StronglySorted (not_below lt) l ->
  In k (firstn n l) -> In d (skipn n l) -> lt k d = false.
Proof.
  revert n. induction l as [|x r IH]; intros n Hs Hk Hd.
  - rewrite firstn_nil in Hk. contradiction.
  - apply StronglySorted_inv in Hs as [Hr Hx].
    destruct n as [|n]; simpl in Hk, Hd; [contradiction|].
    destruct Hk as [<-|Hk].
    + rewrite Forall_forall in Hx. apply Hx.
      now apply (in_skipn n).
    + now apply (IH n).
Qed.

Lemma sorted_prefix_sorted l n :
  StronglySorted (not_below lt) l -> StronglySorted (not_below lt) (firstn n l).
Proof.
  revert n. induction l as [|x r IH]; intros n Hs.
  - rewrite firstn_nil. constructor.
  - apply StronglySorted_inv in Hs as [Hr Hx].
    destruct n as [|n]; simpl; constructor; [auto|].
    rewrite Forall_forall in *. intros z Hz. apply Hx.
    now apply (in_firstn n).
Qed.
End SortFacts.

Lemma Ok_inj {A : Type} (a b : A) : Ok a = Ok b -> a = b.
Proof. now intros [= ->]. Qed.

(** *** Rounding to the nearest double *)

Lemma pow2_pos k : (0 < pow2 k)%Q.
Proof. apply Qpower_0_lt. reflexivity. Qed.

Lemma pow2_add a b : pow2 (a + b) == (pow2 a * pow2 b)%Q.
Proof. apply Qpower_plus. discriminate. Qed.

Lemma pow2_cancel k : (pow2 (- k) * pow2 k == 1)%Q.
Proof. rewrite <- pow2_add. now replace (- k + k) with 0 by lia. Qed.

Lemma pow2_le a b : a <= b -> (pow2 a <= pow2 b)%Q.
Proof. intros H. apply Qpower_le_compat_l; [assumption | discriminate]. Qed.


Lemma pow2_Z k : 0 <= k -> pow2 k == inject_Z (2 ^ k).
Proof. intros H. symmetry. now apply Zpower_Qpower. Qed.

Lemma rne_floor m : Qfloor m <= rne m <= Qfloor m + 1.
Proof.
  unfold rne. destruct (_ ?= _)%Q; [destruct (Z.even _)| |]; lia.
Qed.

Lemma rne_ge_int (N : Z) (m : Q) : (inject_Z N <= m)%Q -> N <= rne m.
Proof.
  intros H. apply Qfloor_resp_le in H. rewrite Qfloor_Z in H.
  pose proof (rne_floor m). lia.
Qed.

Lemma rne_le_int (N : Z) (m : Q) : (m <= inject_Z N)%Q -> rne m <= N.
Proof.
  intros H. pose proof (Qfloor_resp_le _ _ H) as Hf. rewrite Qfloor_Z in Hf.
  destruct (Z.eq_dec (Qfloor m) N) as [E|E].
  - unfold rne. cbv zeta. pose proof (Qfloor_le m) as Hl. rewrite E in *.
    destruct (Qcompare_spec (m - inject_Z N) (1 # 2)); try lia; lra.
  - pose proof (rne_floor m). lia.
Qed.

Lemma rne_mono (x y : Q) : (x <= y)%Q -> rne x <= rne y.
Proof.
  intros H. pose proof (Qfloor_resp_le _ _ H) as Hf.
  destruct (Z.eq_dec (Qfloor x) (Qfloor y)) as [E|E].
  - unfold rne. cbv zeta. rewrite <- E.
    destruct (Qcompare_spec (x - inject_Z (Qfloor x)) (1 # 2)) as [Hx|Hx|Hx];
      destruct (Qcompare_spec (y - inject_Z (Qfloor x)) (1 # 2)) as [Hy|Hy|Hy];
      try destruct (Z.even (Qfloor x)); try lia; lra.
  - pose proof (rne_floor x). pose proof (rne_floor y). lia.
Qed.

Lemma exponent_spec (z : Q) :
  (0 < z)%Q -> (pow2 (exponent z) <= z < pow2 (exponent z + 1))%Q.
Proof.
  intros Hz. destruct z as [a b]. unfold exponent. simpl Qnum. simpl Qden.
  assert (Ha : 0 < a).
  { unfold Qlt in Hz. simpl in Hz. lia. }
  set (la := Z.log2 a). set (lb := Z.log2 (Z.pos b)).
  destruct (Z.log2_spec a Ha) as [Ha1 Ha2]. fold la in Ha1, Ha2.
  destruct (Z.log2_spec (Z.pos b) (Pos2Z.is_pos b)) as [Hb1 Hb2].
  fold lb in Hb1, Hb2.
  assert (Hla : 0 <= la) by apply Z.log2_nonneg.
  assert (Hlb : 0 <= lb) by apply Z.log2_nonneg.
  assert (Hq : a # b == (inject_Z a * / inject_Z (Z.pos b))%Q)
    by apply Qmake_Qdiv.
  assert (Hbpos : (0 < inject_Z (Z.pos b))%Q).
  { change 0%Q with (inject_Z 0). rewrite <- Zlt_Qlt. lia. }
  assert (HA1 : (inject_Z (2 ^ la) <= inject_Z a)%Q)
    by now rewrite <- Zle_Qle.
  assert (HA2 : (inject_Z a < inject_Z (2 ^ (la + 1)))%Q)
    by now rewrite <- Zlt_Qlt.
  assert (HB1 : (inject_Z (2 ^ lb) <= inject_Z (Z.pos b))%Q)
    by now rewrite <- Zle_Qle.
  assert (HB2 : (inject_Z (Z.pos b) < inject_Z (2 ^ (lb + 1)))%Q)
    by now rewrite <- Zlt_Qlt.
  assert (HP1 : (0 < inject_Z (2 ^ la))%Q).
  { change 0%Q with (inject_Z 0). rewrite <- Zlt_Qlt. lia. }
  assert (HP2 : (0 < inject_Z (2 ^ lb))%Q).
  { change 0%Q with (inject_Z 0). rewrite <- Zlt_Qlt. lia. }
  assert (Hpa : forall n, 0 <= n -> inject_Z (2 ^ (n + 1)) == 2 * inject_Z (2 ^ n)).
  { intros n Hn. rewrite Z.pow_add_r by lia. rewrite inject_Z_mult.
    change (inject_Z (2 ^ 1)) with 2%Q. ring. }
  rewrite Hpa in HA2, HB2 by assumption.
  assert (Hdiv : forall x y u v : Q,
             (0 < y)%Q -> (0 < v)%Q -> (x * v < u * y)%Q ->
             (x * / y < u * / v)%Q).
  { intros x y u v Hy Hv H.
    change (x / y < u / v)%Q.
    apply Qlt_shift_div_r; [assumption|].
    assert (E : (u / v * y == u * y / v)%Q).
    { field. intros E0. rewrite E0 in Hv. discriminate. }
    rewrite E. apply Qlt_shift_div_l; assumption. }
  assert (Hupper : (a # b < pow2 (la - lb + 1))%Q).
  { replace (la - lb + 1) with ((la + 1) + - lb) by lia.
    rewrite pow2_add. unfold pow2 at 2. rewrite Qpower_opp. fold (pow2 lb).
    rewrite Hq, !pow2_Z by lia. rewrite Hpa by assumption.
    apply Hdiv; [assumption | assumption |]. nra. }
  assert (Hlower : (pow2 (la - lb - 1) < a # b)%Q).
  { replace (la - lb - 1) with (la + - (lb + 1)) by lia.
    rewrite pow2_add. unfold pow2 at 2. rewrite Qpower_opp.
    fold (pow2 (lb + 1)).
    rewrite Hq, !pow2_Z by lia. rewrite Hpa by assumption.
    apply Hdiv; [lra | assumption |]. nra. }
  destruct (Qle_bool (pow2 (la - lb)) (a # b)) eqn:E.
  - apply Qle_bool_iff in E. split; assumption.
  - assert (Hlt : (a # b < pow2 (la - lb))%Q).
    { apply Qnot_le_lt. intros H. apply Qle_bool_iff in H. congruence. }
    replace (la - lb - 1 + 1) with (la - lb) by lia.
    split; [now apply Qlt_le_weak | assumption].
Qed.

Lemma exponent_mono (x y : Q) :
  (0 < x)%Q -> (x <= y)%Q -> exponent x <= exponent y.
Proof.
  intros Hx Hxy.
  destruct (exponent_spec x Hx) as [Hx1 _].
  destruct (exponent_spec y) as [_ Hy2]; [lra|].
  destruct (Z.le_gt_cases (exponent x) (exponent y)) as [H|H]; [assumption|].
  assert (Hp : (pow2 (exponent y + 1) <= pow2 (exponent x))%Q)
    by (apply pow2_le; lia).
  lra.
Qed.

(** Rounding to a multiple of [2^k] does not cross a multiple of [2^k]. *)
Lemma round_le_multiple (k : Z) (N : Z) (z : Q) :
  (z <= inject_Z N * pow2 k)%Q ->
  (inject_Z (rne (z * pow2 (- k))) * pow2 k <= inject_Z N * pow2 k)%Q.
Proof.
  intros H. pose proof (pow2_pos k) as Hk. pose proof (pow2_pos (- k)) as Hk'.
  apply Qmult_le_compat_r; [|lra].
  rewrite <- Zle_Qle. apply rne_le_int.
  assert (E : (inject_Z N == inject_Z N * pow2 k * pow2 (- k))%Q).
  { rewrite <- Qmult_assoc, (Qmult_comm (pow2 k)), pow2_cancel. ring. }
  rewrite E. apply Qmult_le_compat_r; lra.
Qed.

Lemma round_ge_multiple (k : Z) (N : Z) (z : Q) :
  (inject_Z N * pow2 k <= z)%Q ->
  (inject_Z N * pow2 k <= inject_Z (rne (z * pow2 (- k))) * pow2 k)%Q.
Proof.
  intros H. pose proof (pow2_pos k) as Hk. pose proof (pow2_pos (- k)) as Hk'.
  apply Qmult_le_compat_r; [|lra].
  rewrite <- Zle_Qle. apply rne_ge_int.
  assert (E : (inject_Z N == inject_Z N * pow2 k * pow2 (- k))%Q).
  { rewrite <- Qmult_assoc, (Qmult_comm (pow2 k)), pow2_cancel. ring. }
  rewrite E. apply Qmult_le_compat_r; lra.
Qed.

Lemma pow2_multiple (e k : Z) :
  k <= e -> pow2 e == (inject_Z (2 ^ (e - k)) * pow2 k)%Q.
Proof.
  intros H. rewrite <- pow2_Z by lia. rewrite <- pow2_add.
  now replace (e - k + k) with e by lia.
Qed.

Lemma round_pos_mono (x y : Q) :
  (0 < x)%Q -> (x <= y)%Q -> (round_pos x <= round_pos y)%Q.
Proof.
  intros Hx Hxy. unfold round_pos.
  assert (Hy : (0 < y)%Q) by lra.
  pose proof (exponent_mono x y Hx Hxy) as He.
  destruct (exponent_spec x Hx) as [_ Hx2].
  destruct (exponent_spec y Hy) as [Hy1 _].
  unfold ulp_exponent.
  set (ex := exponent x) in *. set (ey := exponent y) in *.
  destruct (Z.eq_dec (Z.max (ex - 52) (-1074)) (Z.max (ey - 52) (-1074)))
    as [E|E].
  - rewrite E. set (k := Z.max (ey - 52) (-1074)).
    pose proof (pow2_pos k). pose proof (pow2_pos (- k)).
    apply Qmult_le_compat_r; [|lra].
    rewrite <- Zle_Qle. apply rne_mono.
    apply Qmult_le_compat_r; lra.
  - assert (Hlt : ex + 1 <= ey) by lia.
    assert (Hky : Z.max (ey - 52) (-1074) = ey - 52) by lia.
    rewrite Hky.
    set (kx := Z.max (ex - 52) (-1074)) in *.
    assert (Hkx : kx <= ey) by lia.
    apply Qle_trans with (pow2 ey).
    + rewrite (pow2_multiple ey kx Hkx). apply round_le_multiple.
      rewrite <- (pow2_multiple ey kx Hkx).
      apply Qle_trans with (pow2 (ex + 1)); [lra | apply pow2_le; lia].
    + assert (Hk : ey - 52 <= ey) by lia.
      rewrite (pow2_multiple ey (ey - 52) Hk) at 1.
      apply round_ge_multiple.
      now rewrite <- (pow2_multiple ey (ey - 52) Hk).
Qed.

Lemma round_pos_nonneg (z : Q) : (0 < z)%Q -> (0 <= round_pos z)%Q.
Proof.
  intros Hz. unfold round_pos.
  pose proof (pow2_pos (ulp_exponent z)).
  pose proof (pow2_pos (- ulp_exponent z)).
  apply Qmult_le_0_compat; [|lra].
  change 0%Q with (inject_Z 0). rewrite <- Zle_Qle. apply rne_ge_int.
  change (inject_Z 0) with 0%Q. apply Qmult_le_0_compat; lra.
Qed.

Lemma fl_pos (z : Q) : (0 < z)%Q -> fl z = Qred (round_pos z).
Proof.
  intros H. unfold fl. unfold Qlt in H. simpl in H.
  destruct (Qnum z); [lia | reflexivity | lia].
Qed.

Lemma fl_zero (z : Q) : z == 0 -> fl z = 0%Q.
Proof.
  intros H. unfold fl. unfold Qeq in H. simpl in H.
  destruct (Qnum z); [reflexivity | lia | lia].
Qed.

Lemma fl_nonneg (z : Q) : (0 <= z)%Q -> (0 <= fl z)%Q.
Proof.
  intros H. destruct (Qlt_le_dec 0 z) as [Hp|Hn].
  - rewrite fl_pos, Qred_correct by assumption. now apply round_pos_nonneg.
  - rewrite fl_zero by lra. apply Qle_refl.
Qed.

(** Rounding is monotone. *)
Lemma fl_mono (x y : Q) : (0 <= x)%Q -> (x <= y)%Q -> (fl x <= fl y)%Q.
Proof.
  intros Hx Hxy. destruct (Qlt_le_dec 0 x) as [Hp|Hn].
  - rewrite !fl_pos, !Qred_correct by lra. now apply round_pos_mono.
  - rewrite (fl_zero x) by lra. apply fl_nonneg. lra.
Qed.


(** *** White space *)

Lemma lstrip_chars_blank cs :
  forallb is_space cs = true -> lstrip_chars cs = [].
Proof.
  induction cs as [|c r IH]; simpl; [reflexivity|].
  intros H. apply andb_prop in H as [-> Hr]. now apply IH.
Qed.

Lemma strip_blank s : blank s = true -> strip s = EmptyString.
Proof.
  intros H. unfold strip, strip_chars.
  now rewrite (lstrip_chars_blank (chars s) H).
Qed.

End PyFacts.

(** ** Properties of the session store *)

Module SessionSpec.
Import SessionService PyFacts Scenario.

Lemma timed_out_iff svc now s :
  timed_out svc now s = true <-> timeout_us svc < now - last_activity s.
Proof. unfold timed_out, timeout_us. apply Z.ltb_lt. Qed.

Lemma user_sessions_of_iff d uid sid :
  wf d ->
  In sid (user_sessions_of d uid)
  <-> exists s, get sid d = Some s /\ user_id s = uid.
Proof.
  intros Hwf. unfold user_sessions_of. rewrite in_map_iff. split.
  - intros [[k s] [<- Hin]]. apply filter_In in Hin as [Hin Hu].
    exists s. split; [now apply in_get_some | now apply String.eqb_eq].
  - intros [s [Hget Hu]]. exists (sid, s). split; [reflexivity|].
    apply filter_In. split; [now apply get_some_in | now apply String.eqb_eq].
Qed.

(** C3, as stated, fails at the boundary: a session whose idle time is
    exactly [session_timeout] is returned by [get_session]. *)
Lemma get_session_boundary_counterexample :
  let svc := fst (create_session init "s1" 0 "u1" None) in
  let now := 3600000000 in
  exists info,
    snd (get_session svc now "s1") = Some info
    /\ now - SessionInfo.last_activity info >= timeout_us svc.
Proof.
  eexists. split; [reflexivity|]. vm_compute. discriminate.
Qed.

(** C3 (amended): [get_session] never returns a record that has been idle
    for more than [session_timeout]; such a record is deleted and [None] is
    returned, while a record idle for at most [session_timeout] is returned
    and the store is left as it was. *)
Theorem get_session_lazy_expiry svc now sid s :
  wf (active_sessions svc) ->
  get sid (active_sessions svc) = Some s ->
  (forall info, snd (get_session svc now sid) = Some info ->
                now - SessionInfo.last_activity info <= timeout_us svc)
  /\ (timeout_us svc < now - last_activity s ->
      snd (get_session svc now sid) = None
      /\ get sid (active_sessions (fst (get_session svc now sid))) = None)
  /\ (now - last_activity s <= timeout_us svc ->
      get_session svc now sid = (svc, Some (to_info s))).
Proof.
  intros Hwf Hget. unfold get_session. rewrite Hget.
  destruct (timed_out svc now s) eqn:E.
  - apply timed_out_iff in E. simpl. repeat split.
    + discriminate.
    + now apply get_del_eq.
    + lia.
  - assert (Hle : now - last_activity s <= timeout_us svc).
    { destruct (Z.le_gt_cases (now - last_activity s) (timeout_us svc))
        as [Hle|Hgt]; [assumption|].
      apply timed_out_iff in Hgt. congruence. }
    simpl. repeat split.
    + intros info [= <-]. exact Hle.
    + lia.
    + lia.
Qed.

Lemma get_session_lazy_expiry_witness :
  snd (get_session sample_service 3600000901 "a") = None
  /\ get_session sample_service 3600000900 "a"
     = (sample_service, Some (to_info (snd (sample "a" 10 900)))).
Proof.
  assert (Hwf : wf (active_sessions sample_service)).
  { unfold wf. simpl. repeat constructor; simpl; intuition discriminate. }
  split.
  - apply (get_session_lazy_expiry sample_service 3600000901 "a"
             (snd (sample "a" 10 900)) Hwf eq_refl).
    vm_compute. reflexivity.
  - apply (get_session_lazy_expiry sample_service 3600000900 "a"
             (snd (sample "a" 10 900)) Hwf eq_refl).
    vm_compute. discriminate.
Defined.

(** *** Quota eviction *)

Lemma evict_oldest_spec svc uid :
  wf (active_sessions svc) ->
  (0 < max_sessions_per_user svc)%nat ->
  (max_sessions_per_user svc
   <= List.length (user_sessions_of (active_sessions svc) uid))%nat ->
  exists oldest so,
    evict_oldest svc uid = Ok (del oldest (active_sessions svc))
    /\ get oldest (active_sessions svc) = Some so
    /\ user_id so = uid
    /\ forall sid s, get sid (active_sessions svc) = Some s ->
                     user_id s = uid -> created_at so <= created_at s.
Proof.
  intros Hwf Hpos Hquota. unfold evict_oldest.
  destruct (Nat.leb_spec (max_sessions_per_user svc)
              (List.length (user_sessions_of (active_sessions svc) uid)))
    as [_|Hlt]; [|lia].
  destruct (user_sessions_of (active_sessions svc) uid) as [|x r] eqn:Eus;
    [simpl in Hquota; lia|].
  simpl.
  destruct (min_from_spec (created_at_of (active_sessions svc)) r x)
    as [Hin Hmin].
  set (oldest := min_from (created_at_of (active_sessions svc)) x r) in *.
  rewrite <- Eus in Hin, Hmin.
  apply (user_sessions_of_iff _ uid oldest Hwf) in Hin as [so [Hso Hu]].
  exists oldest, so. repeat split; try assumption.
  intros sid s Hs Hus.
  assert (Hsid : In sid (user_sessions_of (active_sessions svc) uid)).
  { apply user_sessions_of_iff; eauto. }
  specialize (Hmin sid Hsid). unfold created_at_of in Hmin.
  now rewrite Hso, Hs in Hmin.
Qed.

(** C4: when the user already holds [max_sessions_per_user] sessions or
    more, [create_session] removes exactly one session, one of that user
    whose [created_at] is least among the user's sessions, whatever the
    [last_activity] values are, and the new session is in the store
    afterwards; every other session is untouched. *)
Theorem create_session_evicts_oldest svc new_id now uid udata :
  wf (active_sessions svc) ->
  get new_id (active_sessions svc) = None ->
  (0 < max_sessions_per_user svc)%nat ->
  (max_sessions_per_user svc
   <= List.length (user_sessions_of (active_sessions svc) uid))%nat ->
  let after :=
    active_sessions (fst (create_session svc new_id now uid udata)) in
  exists oldest so,
    get oldest (active_sessions svc) = Some so
    /\ user_id so = uid
    /\ (forall sid s, get sid (active_sessions svc) = Some s ->
                      user_id s = uid -> created_at so <= created_at s)
    /\ get oldest after = None
    /\ (exists sn, get new_id after = Some sn
                   /\ session_id sn = new_id /\ user_id sn = uid
                   /\ created_at sn = now /\ last_activity sn = now
                   /\ interaction_count sn = 0)
    /\ (forall sid, sid <> oldest -> sid <> new_id ->
                    get sid after = get sid (active_sessions svc))
    /\ List.length after = List.length (active_sessions svc)
    /\ success (snd (create_session svc new_id now uid udata)) = true.
Proof.
  intros Hwf Hfresh Hpos Hquota after.
  destruct (evict_oldest_spec svc uid Hwf Hpos Hquota)
    as [oldest [so [Hev [Hso [Hu Hmin]]]]].
  exists oldest, so.
  assert (Hne : new_id <> oldest) by congruence.
  subst after. unfold create_session. rewrite Hev. simpl.
  repeat split; try assumption.
  - rewrite get_set_neq by assumption. now apply get_del_eq.
  - eexists. split; [apply get_set_eq|]. simpl. repeat split.
  - intros sid H1 H2. rewrite get_set_neq by congruence.
    apply get_del_neq. congruence.
  - rewrite length_set. unfold contains.
    rewrite get_del_neq by congruence. rewrite Hfresh.
    apply length_del. unfold contains. now rewrite Hso.
Qed.

Lemma create_session_evicts_oldest_witness :
  let after :=
    active_sessions (fst (create_session sample_service "n" 1000 "u1" None)) in
  get "a" after = None
  /\ keys after = ["b"; "c"; "n"].
Proof.
  assert (Hwf : wf (active_sessions sample_service)).
  { unfold wf. simpl. repeat constructor; simpl; intuition discriminate. }
  destruct (create_session_evicts_oldest sample_service "n" 1000 "u1" None
              Hwf eq_refl) as [oldest [so H]].
  - vm_compute. lia.
  - vm_compute. lia.
  - split; reflexivity.
Defined.

(** *** Activity updates *)

(** C6: [update_session_activity] returns [False] exactly when the session
    is not in the store; otherwise it sets [last_activity] to the current
    time, adds one to [interaction_count] and merges the patch into the
    context: a key of the patch takes the patch's value, every other key
    keeps its value.  After [create_session] and one update with
    [{"topic": "billing"}] the session has [interaction_count = 1] and
    context [{"topic": "billing"}]. *)
Theorem update_session_activity_spec svc now sid ctx :
  (forall p, ctx = Some p -> wf p) ->
  let r := update_session_activity svc now sid ctx in
  (snd r = false <-> get sid (active_sessions svc) = None)
  /\ (forall s, get sid (active_sessions svc) = Some s ->
        exists s',
          get sid (active_sessions (fst r)) = Some s'
          /\ last_activity s' = now
          /\ interaction_count s' = interaction_count s + 1
          /\ (forall k,
                get k (context s')
                = match ctx with
                  | Some p => match get k p with
                              | Some v => Some v
                              | None => get k (context s)
                              end
                  | None => get k (context s)
                  end)
          /\ session_id s' = session_id s /\ user_id s' = user_id s
          /\ created_at s' = created_at s /\ user_data s' = user_data s
          /\ status s' = status s)
  /\ (forall new_id t0 uid,
        let svc1 := fst (create_session init new_id t0 uid None) in
        let svc2 :=
          fst (update_session_activity svc1 now new_id
                 (Some [("topic", PStr "billing")])) in
        get_session_context svc2 new_id = [("topic", PStr "billing")]
        /\ option_map SessionInfo.interaction_count
             (snd (get_session svc2 now new_id)) = Some 1).
Proof.
  intros Hwf r. subst r. unfold update_session_activity.
  split; [|split].
  - destruct (get sid (active_sessions svc)); simpl;
      split; intros; (discriminate || reflexivity).
  - intros s Hs. rewrite Hs. simpl. eexists. split; [apply get_set_eq|].
    simpl. repeat split.
    intros k. destruct ctx as [p|]; [|reflexivity].
    destruct p as [|kv p']; [reflexivity|]. simpl truthy. cbv iota.
    apply get_update. now apply Hwf.
  - intros new_id t0 uid. unfold get_session_context, get_session,
      create_session, timed_out. simpl.
    repeat (rewrite ?String.eqb_refl, ?Z.sub_diag; simpl).
    split; reflexivity.
Qed.

Lemma update_session_activity_spec_witness :
  let patch := Some [("topic", PStr "billing")] in
  snd (update_session_activity sample_service 1000 "zz" patch) = false
  /\ exists s',
       get "a" (active_sessions
                  (fst (update_session_activity sample_service 1000 "a"
                          patch))) = Some s'
       /\ last_activity s' = 1000
       /\ interaction_count s' = 1
       /\ get "topic" (context s') = Some (PStr "billing").
Proof.
  assert (Hwf : forall p, Some [("topic", PStr "billing")] = Some p -> wf p).
  { intros p [= <-]. unfold wf. simpl. repeat constructor. simpl. tauto. }
  split.
  - destruct (update_session_activity_spec sample_service 1000 "zz"
                (Some [("topic", PStr "billing")]) Hwf) as [[_ H] _].
    now apply H.
  - destruct (update_session_activity_spec sample_service 1000 "a"
                (Some [("topic", PStr "billing")]) Hwf) as [_ [H _]].
    destruct (H (snd (sample "a" 10 900)) eq_refl)
      as [s' [Hs [Hl [Hc [Hctx _]]]]].
    exists s'. split; [exact Hs|]. split; [exact Hl|].
    split; [exact Hc|]. exact (Hctx "topic").
Defined.

Lemma get_del_none sid k (d : dict session_data) :
  get sid d = None -> get sid (del k d) = None.
Proof.
  rewrite !get_none_iff. intros H Hin. apply H.
  now apply (keys_del_incl k d).
Qed.

Lemma get_sweep_none sid (l : list string) (d : dict session_data) :
  wf d ->
  (In sid l \/ get sid d = None) ->
  get sid (fold_left (fun d k => del k d) l d) = None.
Proof.
  revert d. induction l as [|x r IH]; intros d Hwf H; simpl.
  - destruct H as [[]|H]. exact H.
  - apply IH; [now apply wf_del|].
    destruct H as [[->|Hin]|Hnone].
    + right. now apply get_del_eq.
    + now left.
    + right. now apply get_del_none.
Qed.

(** C9: a session that is still in the store although it has been idle for
    longer than [session_timeout] (a read or the sweep at that moment would
    drop it) is revived by [update_session_activity]: the call returns
    [True], adds one to [interaction_count], sets [last_activity] to the
    current time, and a read right after it returns the session. *)
Theorem update_revives_timed_out_session svc now sid s ctx :
  wf (active_sessions svc) ->
  get sid (active_sessions svc) = Some s ->
  timeout_us svc < now - last_activity s ->
  let r := update_session_activity svc now sid ctx in
  snd (get_session svc now sid) = None
  /\ get sid (active_sessions (_cleanup_expired_sessions svc now)) = None
  /\ snd r = true
  /\ exists s',
       get sid (active_sessions (fst r)) = Some s'
       /\ interaction_count s' = interaction_count s + 1
       /\ last_activity s' = now
       /\ get_session (fst r) now sid = (fst r, Some (to_info s')).
Proof.
  intros Hwf Hs Hidle r.
  assert (Hto : timed_out svc now s = true) by now apply timed_out_iff.
  split; [|split; [|split]].
  - unfold get_session. now rewrite Hs, Hto.
  - unfold _cleanup_expired_sessions. simpl.
    apply get_sweep_none; [assumption|]. left.
    apply in_map_iff. exists (sid, s). split; [reflexivity|].
    apply filter_In. split; [now apply get_some_in | exact Hto].
  - subst r. unfold update_session_activity. now rewrite Hs.
  - subst r. unfold update_session_activity. rewrite Hs. simpl.
    eexists. split; [apply get_set_eq|]. simpl. repeat split.
    unfold get_session. simpl. rewrite get_set_eq.
    unfold timed_out. simpl. rewrite Z.sub_diag.
    destruct (Z.ltb_spec (Z.of_nat (session_timeout svc) * 1000000) 0);
      [lia | reflexivity].
Qed.

Lemma update_revives_timed_out_session_witness :
  let r := update_session_activity sample_service 3600000031 "b" None in
  snd (get_session sample_service 3600000031 "b") = None
  /\ snd r = true
  /\ option_map SessionInfo.interaction_count
       (snd (get_session (fst r) 3600000031 "b")) = Some 1.
Proof.
  assert (Hwf : wf (active_sessions sample_service)).
  { unfold wf. simpl. repeat constructor; simpl; intuition discriminate. }
  destruct (update_revives_timed_out_session sample_service 3600000031 "b"
              (snd (sample "b" 20 30)) None Hwf eq_refl)
    as [H1 [_ [H2 _]]].
  - vm_compute. reflexivity.
  - split; [exact H1|]. split; [exact H2|]. reflexivity.
Defined.

End SessionSpec.

(** ** Properties of the memory store *)

Module MemorySpec.
Import MemoryService PyFacts Scenario.

(** *** Relevance *)


Lemma entity_term_bounds (n : nat) :
  (0 <= Qmin (inject_Z (Z.of_nat n) * (1 # 10)) (3 # 10) <= 3 # 10)%Q.
Proof.
  assert (H : (0 <= inject_Z (Z.of_nat n))%Q).
  { change 0%Q with (inject_Z 0). rewrite <- Zle_Qle. lia. }
  split; [apply Q.min_glb; lra | apply Q.le_min_r].
Qed.

Lemma in_strings_exclusive (t : pyval) :
  in_strings t ["purchase"; "support"; "form_fill"] = true ->
  in_strings t ["question"; "search"] = false.
Proof.
  destruct t as [| | |s| |]; simpl; try discriminate.
  destruct (String.eqb_spec s "purchase") as [->|_]; [reflexivity|].
  destruct (String.eqb_spec s "support") as [->|_]; [reflexivity|].
  destruct (String.eqb_spec s "form_fill") as [->|_]; [reflexivity|].
  discriminate.
Qed.

Lemma clamp01_min (x : Q) : (0 <= x)%Q -> clamp01 x == Qmin x 1.
Proof.
  intros Hx. unfold clamp01. apply Q.max_r. apply Q.min_glb; lra.
Qed.

Lemma raw_score_bounds interaction : ((1 # 2) <= raw_score interaction)%Q.
Proof.
  unfold raw_score, type_bonus, entities_bonus.
  destruct (in_strings _ ["purchase"; "support"; "form_fill"]);
    destruct (in_strings _ ["question"; "search"]);
    destruct (get "entities" interaction) as [v|];
    try (destruct (len v) as [n|]; [pose proof (entity_term_bounds n)|]);
    destruct (get "context" interaction) as [c|];
    try (destruct (len c) as [m|]; [destruct (2 <? m)%nat|]);
    lra.
Qed.

(** From three entities on the entity term is the literal [0.3]: the
    product [n * 0.1] is [0.30000000000000004] for [n = 3] and grows with
    [n]. *)
Lemma entities_term_saturates (n : nat) :
  (3 <= n)%nat ->
  Qmin (fmul (float_of_int (Z.of_nat n)) (fl (1 # 10))) (fl (3 # 10))
  = fl (3 # 10).
Proof.
  intros Hn.
  assert (H3 : (fl (3 # 10) < fmul (float_of_int 3) (fl (1 # 10)))%Q)
    by (apply Qlt_alt; vm_compute; reflexivity).
  assert (Hf : (float_of_int 3 <= float_of_int (Z.of_nat n))%Q).
  { unfold float_of_int. apply fl_mono; [discriminate|].
    rewrite <- Zle_Qle. lia. }
  assert (H1 : (0 <= fl (1 # 10))%Q) by (apply fl_nonneg; discriminate).
  assert (H0 : (0 <= float_of_int 3)%Q) by (apply fl_nonneg; discriminate).
  assert (Hm : (fmul (float_of_int 3) (fl (1 # 10))
                <= fmul (float_of_int (Z.of_nat n)) (fl (1 # 10)))%Q).
  { unfold fmul. apply fl_mono.
    - apply Qmult_le_0_compat; assumption.
    - apply Qmult_le_compat_r; assumption. }
  unfold Qmin, GenericMinMax.gmin.
  assert (Hgt : (fl (3 # 10)
                 < fmul (float_of_int (Z.of_nat n)) (fl (1 # 10)))%Q) by lra.
  apply Qgt_alt in Hgt. now rewrite Hgt.
Qed.

Lemma exact_term_saturates (n : nat) :
  Qmin (inject_Z (Z.of_nat (S (S (S n)))) * (1 # 10)) (3 # 10) == 3 # 10.
Proof.
  apply Q.min_r.
  assert (H : (inject_Z 3 <= inject_Z (Z.of_nat (S (S (S n)))))%Q)
    by (rewrite <- Zle_Qle; lia).
  change (inject_Z 3) with 3%Q in H. lra.
Qed.

Ltac closed_Qle := apply Qle_bool_iff; vm_compute; reflexivity.

(** The score lies between 0.5 and 1 and is within [2^-53] of the exact
    value of the formula. *)
Lemma relevance_score_spec interaction s :
  _calculate_relevance_score interaction = Ok s ->
  ((1 # 2) <= s <= 1)%Q
  /\ (Qabs (s - payload_relevance_score interaction) <= pow2 (-53))%Q.
Proof.
  unfold _calculate_relevance_score, payload_relevance_score, raw_score,
    type_bonus, entities_bonus, clamp01.
  set (t := get_default "type" (PStr EmptyString) interaction).
  pose proof (in_strings_exclusive t) as Hex.
  destruct (in_strings t ["purchase"; "support"; "form_fill"]);
    [rewrite (Hex eq_refl)|destruct (in_strings t ["question"; "search"])];
    (destruct (get "entities" interaction) as [v|];
     [destruct (len v) as [[|[|[|n]]]|]|]);
    (destruct (get "context" interaction) as [c|];
     [destruct (len c) as [m|]|]);
    cbv beta iota zeta delta [bind];
    lazymatch goal with
    | |- Raise _ = Ok _ -> _ => discriminate
    | |- _ => idtac
    end;
    try destruct (2 <? m)%nat;
    lazymatch goal with
    | |- context [Z.of_nat (S (S (S ?k)))] =>
        rewrite (entities_term_saturates (S (S (S k)))) by lia;
        rewrite (exact_term_saturates k)
    | |- _ => idtac
    end;
    intros H; apply Ok_inj in H; subst s;
    (split; [split; closed_Qle
            | apply Qabs_Qle_condition; split; closed_Qle]).
Qed.

Lemma relevance_score_total interaction :
  payload_ok interaction = true ->
  exists s, _calculate_relevance_score interaction = Ok s.
Proof.
  unfold payload_ok, _calculate_relevance_score, sized.
  intros H. apply andb_prop in H as [H Hc]. apply andb_prop in H as [_ He].
  destruct (get "entities" interaction) as [v|];
    [destruct (len v); [|discriminate]|];
    (destruct (get "context" interaction) as [c|];
     [destruct (len c); [|discriminate]|]);
    cbv beta iota zeta delta [bind]; eauto.
Qed.

(** *** The shape of [store_interaction] *)

Lemma make_entry_score new_id now request e :
  make_entry new_id now request = Ok e ->
  _calculate_relevance_score (MemoryRequest.interaction request)
  = Ok (MemoryEntry.relevance_score e)
  /\ MemoryEntry.timestamp e = PDatetime now
  /\ MemoryEntry.user_id e = MemoryRequest.user_id request
  /\ MemoryEntry.data e = MemoryRequest.interaction request.
Proof.
  unfold make_entry.
  destruct (_calculate_relevance_score _) as [s|]; simpl; [|discriminate].
  destruct (get_default "type" (PStr "unknown") _); simpl; try discriminate.
  intros [= <-]. simpl. repeat split.
Qed.

Lemma make_entry_total new_id now request :
  payload_ok (MemoryRequest.interaction request) = true ->
  exists e, make_entry new_id now request = Ok e.
Proof.
  intros Hok. destruct (relevance_score_total _ Hok) as [s Hs].
  unfold make_entry. rewrite Hs. simpl.
  unfold payload_ok in Hok. apply andb_prop in Hok as [Hok _].
  apply andb_prop in Hok as [Ht _]. unfold get_default.
  destruct (get "type" _) as [[]|]; simpl; try discriminate; eauto.
Qed.

Lemma store_created svc new_id now request e :
  memory_entries (snd (store_interaction svc new_id now request)) = Some [e] ->
  make_entry new_id now request = Ok e.
Proof.
  unfold store_interaction.
  destruct (make_entry new_id now request) as [e0|]; [|discriminate].
  destruct (get _ _); [|discriminate].
  destruct (truncate _ _); [|discriminate].
  simpl. now intros [= ->].
Qed.

Lemma update_summary_entries svc now uid uid' :
  entries_of (_update_context_summary svc now uid) uid' = entries_of svc uid'.
Proof.
  unfold _update_context_summary, entries_of.
  destruct (get uid (memory_storage svc)) as [um|] eqn:E; [|reflexivity].
  destruct (entries um) eqn:Ees; [reflexivity|].
  destruct (build_summary now _); [|reflexivity]. simpl.
  destruct (String.eqb_spec uid uid') as [<-|Hne].
  - rewrite get_set_eq, E. simpl. now rewrite Ees.
  - now rewrite get_set_neq.
Qed.

Lemma update_summary_capacity svc now uid :
  max_memory_entries (_update_context_summary svc now uid)
  = max_memory_entries svc.
Proof.
  unfold _update_context_summary.
  destruct (get uid (memory_storage svc)) as [um|]; [|reflexivity].
  destruct (entries um); [reflexivity|].
  now destruct (build_summary now _).
Qed.

(** What a call does to the entry lists: the new entry is appended to the
    caller's list, the list is cut to capacity, and the call fails with the
    entry appended when the sort cannot order the list. *)
Lemma store_entries svc new_id now request e :
  make_entry new_id now request = Ok e ->
  let uid := MemoryRequest.user_id request in
  let r := store_interaction svc new_id now request in
  (forall uid', uid' <> uid ->
                entries_of (fst r) uid' = entries_of svc uid')
  /\ match truncate (max_memory_entries svc) (entries_of svc uid ++ [e]) with
     | Ok es => entries_of (fst r) uid = es
                /\ memory_entries (snd r) = Some [e]
                /\ success (snd r) = true
     | Raise _ => entries_of (fst r) uid = entries_of svc uid ++ [e]
                  /\ success (snd r) = false
     end
  /\ max_memory_entries (fst r) = max_memory_entries svc.
Proof.
  intros He uid r. subst r. unfold store_interaction. rewrite He.
  fold uid.
  set (storage := if contains uid (memory_storage svc)
                  then memory_storage svc
                  else set uid (new_user_memory uid now) (memory_storage svc)).
  assert (Hst : exists um, get uid storage = Some um
                           /\ entries um = entries_of svc uid
                           /\ forall uid', uid' <> uid ->
                                get uid' storage
                                = get uid' (memory_storage svc)).
  { subst storage. unfold contains, entries_of.
    destruct (get uid (memory_storage svc)) as [um|] eqn:E.
    - exists um. auto.
    - exists (new_user_memory uid now). rewrite get_set_eq.
      repeat split. intros uid' Hne. apply get_set_neq. congruence. }
  destruct Hst as [um [Hum [Hes Hother]]]. rewrite Hum. simpl entries.
  rewrite Hes.
  destruct (truncate (max_memory_entries svc) (entries_of svc uid ++ [e]))
    as [es|x] eqn:Etr.
  - repeat split.
    + intros uid' Hne. simpl. rewrite update_summary_entries.
      unfold entries_of. simpl. rewrite !get_set_neq by congruence.
      now rewrite Hother.
    + simpl. rewrite update_summary_entries. unfold entries_of. simpl.
      now rewrite get_set_eq.
    + simpl. now rewrite update_summary_capacity.
  - repeat split.
    + intros uid' Hne. simpl. unfold entries_of. simpl.
      rewrite get_set_neq by congruence. now rewrite Hother.
    + simpl. unfold entries_of. simpl. now rewrite get_set_eq.
Qed.

(** C1, as stated, fails: with payload [{"type": "other", "intent": "i1"}]
    and a context argument of three keys the stored entry scores [0.5], not
    the [0.6] that the claim's formula gives; the difference is no matter
    of rounding. *)
Lemma store_ignores_context_argument_counterexample :
  let req := request "u1" "other" "i1" (Some three_keys) in
  exists e,
    memory_entries (snd (store_interaction init "e1" 1000 req)) = Some [e]
    /\ MemoryEntry.relevance_score e = (1 # 2)%Q
    /\ ~ (MemoryEntry.relevance_score e == claimed_relevance_score req)
    /\ ~ (Qabs (MemoryEntry.relevance_score e - claimed_relevance_score req)
          <= pow2 (-53))%Q.
Proof.
  eexists. split; [vm_compute; reflexivity|].
  split; [vm_compute; reflexivity|].
  split; [vm_compute; discriminate|].
  intros H. apply Qle_bool_iff in H. vm_compute in H. discriminate.
Qed.

(** The double the code returns is not always the one nearest to the exact
    value of the formula: for a question with one entity the sum
    [0.5 + 0.2 + 0.1] is [0.7999999999999999], one place below [0.8]. *)
Lemma relevance_score_not_nearest :
  _calculate_relevance_score
    [("type", PStr "question"); ("entities", PList [PStr "a"])]
  = Ok (7205759403792793 # 9007199254740992)%Q
  /\ fl (8 # 10) = (3602879701896397 # 4503599627370496)%Q
  /\ (7205759403792793 # 9007199254740992 < fl (8 # 10))%Q.
Proof.
  split; [vm_compute; reflexivity|]. split; [vm_compute; reflexivity|].
  apply Qlt_alt. vm_compute. reflexivity.
Qed.

(** C1 (amended): the relevance score of the entry a store call creates is
    the value [_calculate_relevance_score] gives for the payload alone; the
    [context] argument of the call does not enter it.  That value is the
    sum, in double precision, of 0.5, of 0.3 for a type among purchase,
    support, form_fill or 0.2 for a type among question, search, of
    min(0.1 x n, 0.3) when the payload has an [entities] value of length n,
    and of 0.1 when the payload itself has a [context] value of length above
    2, capped at 1.0: it lies within [2^-53] of the exact value of that
    formula clamped to [0, 1]. *)
Theorem store_relevance_score svc new_id now request e :
  memory_entries (snd (store_interaction svc new_id now request)) = Some [e] ->
  _calculate_relevance_score (MemoryRequest.interaction request)
  = Ok (MemoryEntry.relevance_score e)
  /\ (Qabs (MemoryEntry.relevance_score e
            - payload_relevance_score (MemoryRequest.interaction request))
      <= pow2 (-53))%Q.
Proof.
  intros H. apply store_created in H. apply make_entry_score in H as [H _].
  split; [exact H|]. now apply relevance_score_spec in H.
Qed.

Lemma store_relevance_score_witness :
  exists e,
    memory_entries (snd (store_interaction init "e1" 1000 rich_request))
    = Some [e]
    /\ MemoryEntry.relevance_score e = 1%Q
    /\ (Qabs (MemoryEntry.relevance_score e
              - payload_relevance_score
                  (MemoryRequest.interaction rich_request))
        <= pow2 (-53))%Q.
Proof.
  eexists. split; [vm_compute; reflexivity|].
  split; [vm_compute; reflexivity|].
  apply (store_relevance_score init "e1" 1000 rich_request).
  vm_compute. reflexivity.
Defined.

(** *** Range of the score *)

Lemma relevance_score_bounds interaction s :
  _calculate_relevance_score interaction = Ok s ->
  ((1 # 2) <= s <= 1)%Q.
Proof.
  intros H. now apply relevance_score_spec in H.
Qed.

Lemma truncate_incl cap es es' :
  truncate cap es = Ok es' -> incl es' es.
Proof.
  unfold truncate, sorted_checked.
  destruct (cap <? List.length es)%nat; [|now intros [= <-]; apply incl_refl].
  destruct (forallb _ es); simpl; [|discriminate].
  intros [= <-] x Hx. apply in_firstn in Hx.
  apply (Permutation_in x (Permutation_sym (sorted_desc_perm key_lt es))).
  exact Hx.
Qed.

Lemma store_call_scores svc c :
  scores_in_range svc -> scores_in_range (store_call svc c).
Proof.
  intros Hinv uid e. unfold store_call.
  destruct (make_entry (call_id c) (call_time c) (call_request c))
    as [e0|x] eqn:He.
  - destruct (store_entries svc _ _ _ _ He) as [Hother [Hmine _]].
    assert (He0 : ((1 # 2) <= MemoryEntry.relevance_score e0 <= 1)%Q).
    { apply make_entry_score in He as [He _].
      now apply relevance_score_bounds in He. }
    assert (Happ : forall x, In x (entries_of svc
                                (MemoryRequest.user_id (call_request c))
                              ++ [e0]) ->
                   ((1 # 2) <= MemoryEntry.relevance_score x <= 1)%Q).
    { intros x Hx. apply in_app_or in Hx as [Hx|[<-|[]]]; eauto. }
    destruct (String.eqb_spec uid (MemoryRequest.user_id (call_request c)))
      as [->|Hne].
    + destruct (truncate _ _) as [es|] eqn:Etr.
      * destruct Hmine as [-> _]. intros Hin. apply Happ.
        now apply (truncate_incl _ _ _ Etr).
      * destruct Hmine as [-> _]. apply Happ.
    + rewrite Hother by assumption. apply Hinv.
  - unfold store_interaction. rewrite He. simpl. apply Hinv.
Qed.

Lemma store_all_scores svc calls :
  scores_in_range svc -> scores_in_range (store_all svc calls).
Proof.
  revert svc. induction calls as [|c r IH]; intros svc Hinv; simpl; auto.
  apply IH. now apply store_call_scores.
Qed.

(** C10: whatever the payload, the score that [_calculate_relevance_score]
    returns lies between 0.5 and 1.0 (and it does return one when the
    [entities] and [context] values, if any, have a length); so the lower
    clamp of the specification never applies, the entry of a successful
    store has a score in that range, and so has every entry of a store that
    started empty. *)
Theorem relevance_score_range interaction :
  (forall s, _calculate_relevance_score interaction = Ok s ->
             ((1 # 2) <= s <= 1)%Q)
  /\ (payload_ok interaction = true ->
      exists s, _calculate_relevance_score interaction = Ok s)
  /\ clamp01 (raw_score interaction) == Qmin (raw_score interaction) 1
  /\ (forall svc new_id now request e,
        MemoryRequest.interaction request = interaction ->
        memory_entries (snd (store_interaction svc new_id now request))
        = Some [e] ->
        ((1 # 2) <= MemoryEntry.relevance_score e <= 1)%Q)
  /\ (forall calls uid e,
        In e (entries_of (store_all init calls) uid) ->
        ((1 # 2) <= MemoryEntry.relevance_score e <= 1)%Q).
Proof.
  split; [|split; [|split; [|split]]].
  - intros s. apply relevance_score_bounds.
  - apply relevance_score_total.
  - apply clamp01_min. pose proof (raw_score_bounds interaction). lra.
  - intros svc new_id now request e <- H. apply store_created in H.
    apply make_entry_score in H as [H _].
    now apply relevance_score_bounds in H.
  - intros calls. apply store_all_scores. intros uid e [].
Qed.

Lemma relevance_score_range_witness :
  exists s,
    _calculate_relevance_score (MemoryRequest.interaction rich_request) = Ok s
    /\ ((1 # 2) <= s <= 1)%Q.
Proof.
  destruct (relevance_score_range (MemoryRequest.interaction rich_request))
    as [Hrange [Htotal _]].
  destruct (Htotal eq_refl) as [s Hs].
  exists s. split; [exact Hs | exact (Hrange s Hs)].
Defined.

(** *** Search *)

Lemma str_in_empty (hay : string) : str_in EmptyString hay = true.
Proof. now destruct hay. Qed.

Section SearchFacts.
Variable lower : string -> string.

Lemma fold_without_match (data_text context_text : string)
    (ws : list string) (score : Q) :
  existsb (fun w => str_in w data_text || str_in w context_text) ws = false ->
  fold_left (fun score word =>
               add_if (str_in word context_text) (fl (1 # 10))
                      (add_if (str_in word data_text) (fl (3 # 10)) score))
            ws score = score.
Proof.
  revert score. induction ws as [|w r IH]; intros score H; simpl in *;
    [reflexivity|].
  apply orb_false_elim in H as [Hw Hr].
  apply orb_false_elim in Hw as [-> ->]. unfold add_if. now apply IH.
Qed.

Lemma search_score_without_match e query :
  matches lower e query = false ->
  Qlt_bool 0 (_calculate_search_score lower e query) = false.
Proof.
  unfold matches, _calculate_search_score. intros H.
  apply orb_false_elim in H as [H Hws].
  apply orb_false_elim in H as [-> ->]. cbv zeta.
  rewrite fold_without_match by exact Hws. unfold add_if.
  change (fl 0) with 0%Q. unfold fmul.
  rewrite fl_zero by ring. reflexivity.
Qed.

Lemma search_score_empty_query e :
  _calculate_search_score lower e EmptyString
  = fmul (3 # 2) (MemoryEntry.relevance_score e).
Proof.
  unfold _calculate_search_score. rewrite !str_in_empty.
  change (split EmptyString) with (@nil string). cbv zeta.
  unfold fold_left, add_if.
  replace (fadd (fadd (fl 0) (fl 1)) (fl (1 # 2))) with (3 # 2)%Q
    by (vm_compute; reflexivity).
  reflexivity.
Qed.
End SearchFacts.

(** C5, as stated, fails for the empty query: the empty string occurs in
    every text, so the entry of a user with one stored interaction is
    returned. *)
Lemma search_empty_query_counterexample :
  let svc := store_call init
               (mk_call "e1" 1000 (request "u1" "other" "i1" None)) in
  exists e,
    get "u1" (memory_storage svc) <> None
    /\ memory_entries (search_user_memory ascii_lower svc "u1" EmptyString 5)
       = Some [e].
Proof.
  eexists. split; [vm_compute; discriminate | vm_compute; reflexivity].
Qed.

(** C5 (amended): a search whose lower-cased query and whose tokens occur
    in no entry's serialised and lower-cased payload or context returns an
    empty list of entries, whatever [str.lower] does to the texts.  The
    empty query is not of that kind: it occurs in every text, every entry
    scores 1.5 times its relevance (rounded to a double), and entries are
    returned. *)
Theorem search_without_match lower svc uid query limit :
  (forall e, In e (entries_of svc uid) ->
             matches lower e (lower query) = false) ->
  search_user_memory lower svc uid query limit
  = {| success := true; memory_entries := Some [];
       response_summary := None |}
  /\ (lower EmptyString = EmptyString ->
      forall e, _calculate_search_score lower e (lower EmptyString)
                = fmul (3 # 2) (MemoryEntry.relevance_score e)).
Proof.
  intros H. split;
    [|intros -> e; apply search_score_empty_query].
  unfold search_user_memory, entries_of in *.
  destruct (get uid (memory_storage svc)) as [um|]; [|reflexivity].
  assert (Hnone : filter (fun es : entry * Q => Qlt_bool 0 (snd es))
                    (map (fun e => (e, _calculate_search_score lower e
                                         (lower query))) (entries um)) = []).
  { induction (entries um) as [|e r IH]; [reflexivity|]. simpl.
    rewrite search_score_without_match by (apply H; now left).
    apply IH. intros x Hx. apply H. now right. }
  rewrite Hnone. simpl. unfold slice_to.
  destruct (limit <? 0); now rewrite firstn_nil.
Qed.

Lemma search_without_match_witness :
  memory_entries (search_user_memory ascii_lower (store_all init six_calls)
                    "u1" "Billing ZZZ" 5) = Some [].
Proof.
  destruct (search_without_match ascii_lower (store_all init six_calls) "u1"
              "Billing ZZZ" 5) as [-> _]; [|reflexivity].
  intros e He. vm_compute in He.
  repeat (destruct He as [<-|He]; [vm_compute; reflexivity|]).
  contradiction.
Defined.

(** *** Retention sweep *)

Lemma filter_after_loaded cutoff_date es :
  (forall e, In e es -> is_iso e = true) ->
  filter_after cutoff_date es = Ok (filter (younger cutoff_date) es).
Proof.
  induction es as [|e r IH]; intros H; simpl; [reflexivity|].
  assert (He : is_iso e = true) by (apply H; now left).
  unfold is_iso in He.
  destruct (MemoryEntry.timestamp e) as [us|us] eqn:Et; [discriminate|].
  simpl. rewrite IH by (intros x Hx; apply H; now right). simpl.
  change (younger cutoff_date e)
    with (cutoff_date <? instant (MemoryEntry.timestamp e)).
  rewrite Et. simpl. now destruct (cutoff_date <? us).
Qed.

(** One round of the loop, seen through [get]. *)
Lemma sweep_round_get cutoff_date uid um (storage : dict user_memory) :
  wf storage ->
  let es := filter (younger cutoff_date) (entries um) in
  let storage1 := set uid (with_entries um es) storage in
  let storage2 := match es with
                  | [] => del uid storage1
                  | _ :: _ => storage1
                  end in
  wf storage2
  /\ get uid storage2 = swept cutoff_date um
  /\ forall u, u <> uid -> get u storage2 = get u storage.
Proof.
  intros Hwf es storage1 storage2.
  assert (Hwf1 : wf storage1) by now apply wf_set.
  subst storage2. unfold swept. fold es. destruct es as [|e r] eqn:Ees.
  - split; [now apply wf_del|]. split; [now apply get_del_eq|].
    intros u Hne. rewrite get_del_neq by congruence.
    apply get_set_neq. congruence.
  - split; [assumption|]. split; [apply get_set_eq|].
    intros u Hne. apply get_set_neq. congruence.
Qed.

Lemma swept_entries cutoff_date um um' e :
  swept cutoff_date um = Some um' ->
  (In e (entries um')
   <-> In e (entries um) /\ cutoff_date < instant (MemoryEntry.timestamp e))
  /\ entries um' <> [].
Proof.
  unfold swept.
  destruct (filter (younger cutoff_date) (entries um)) as [|x r] eqn:Ef;
    [discriminate|].
  intros [= <-]. simpl entries. rewrite <- Ef. split.
  - unfold younger. rewrite filter_In, Z.ltb_lt. tauto.
  - rewrite Ef. discriminate.
Qed.

Lemma cleanup_loop_get cutoff_date uids :
  forall storage : dict user_memory,
    wf storage -> loaded storage -> NoDup uids ->
    (forall u, In u uids -> get u storage <> None) ->
    forall u,
      (In u uids ->
       get u (cleanup_loop cutoff_date uids storage)
       = match get u storage with
         | Some um => swept cutoff_date um
         | None => None
         end)
      /\ (~ In u uids ->
          get u (cleanup_loop cutoff_date uids storage) = get u storage).
Proof.
  induction uids as [|x rest IH]; intros storage Hwf Hld Hnd Hin u.
  - simpl. split; [contradiction | reflexivity].
  - simpl. inversion Hnd as [|? ? Hx Hrest]; subst.
    destruct (get x storage) as [um|] eqn:Ex;
      [|exfalso; apply (Hin x); [now left | assumption]].
    rewrite filter_after_loaded by (intros e He; now apply (Hld x um)).
    destruct (sweep_round_get cutoff_date x um storage Hwf)
      as [Hwf2 [Hx2 Hother]].
    set (es := filter (younger cutoff_date) (entries um)) in *.
    set (storage2 := match es with
                     | [] => del x (set x (with_entries um es) storage)
                     | _ :: _ => set x (with_entries um es) storage
                     end) in *.
    assert (Hld2 : loaded storage2).
    { intros v vm e Hv He.
      destruct (String.eqb_spec v x) as [->|Hne].
      - rewrite Hx2 in Hv.
        apply (swept_entries _ _ _ e) in Hv as [Hv _].
        apply Hv in He as [He _]. now apply (Hld x um).
      - rewrite Hother in Hv by assumption. now apply (Hld v vm). }
    assert (Hin2 : forall v, In v rest -> get v storage2 <> None).
    { intros v Hv. rewrite Hother by (intros ->; contradiction).
      apply Hin. now right. }
    destruct (IH storage2 Hwf2 Hld2 Hrest Hin2 u) as [IH1 IH2].
    destruct (String.eqb_spec u x) as [->|Hne].
    + split; [|intros H; exfalso; apply H; now left].
      intros _. rewrite IH2 by assumption. now rewrite Hx2, Ex.
    + split.
      * intros [->|Hu]; [congruence|]. rewrite IH1 by assumption.
        now rewrite Hother.
      * intros Hu. rewrite IH2 by (intros H; apply Hu; now right).
        now apply Hother.
Qed.

(** C7: on a store as read from the snapshot, the retention sweep with
    [retention_days = 30] keeps of every aggregate exactly the entries whose
    timestamp is later than 30 days before now, so an entry more than 30
    days old (31 days, say) is removed and a younger one (29 days) is kept,
    and it deletes every aggregate whose entry list is then empty. *)
Theorem retention_sweep svc now :
  memory_retention_days svc = 30%nat ->
  wf (memory_storage svc) ->
  loaded (memory_storage svc) ->
  let after := memory_storage (_cleanup_old_entries svc now) in
  (forall uid,
      get uid after = match get uid (memory_storage svc) with
                      | Some um => swept (now - days 30) um
                      | None => None
                      end)
  /\ (forall uid um e,
        get uid after = Some um -> In e (entries um) ->
        now - days 30 < instant (MemoryEntry.timestamp e))
  /\ (forall uid um, get uid after = Some um -> entries um <> [])
  /\ (forall uid um e,
        get uid (memory_storage svc) = Some um -> In e (entries um) ->
        now - days 30 < instant (MemoryEntry.timestamp e) ->
        exists um', get uid after = Some um' /\ In e (entries um')).
Proof.
  intros Hdays Hwf Hld after.
  assert (Hget : forall uid,
             get uid after = match get uid (memory_storage svc) with
                             | Some um => swept (now - days 30) um
                             | None => None
                             end).
  { intros uid. subst after. unfold _cleanup_old_entries. simpl.
    rewrite Hdays.
    destruct (cleanup_loop_get (now - days 30) (keys (memory_storage svc))
                (memory_storage svc) Hwf Hld Hwf
                (fun u Hu Hnone => proj1 (get_none_iff u _) Hnone Hu) uid)
      as [H1 H2].
    destruct (get uid (memory_storage svc)) as [um|] eqn:E.
    - rewrite H1; [reflexivity|].
      destruct (in_dec string_dec uid (keys (memory_storage svc)))
        as [Hin|Hout]; [assumption|].
      apply get_none_iff in Hout. congruence.
    - rewrite H2; [reflexivity | now apply get_none_iff]. }
  split; [exact Hget|]. split; [|split].
  - intros uid um e Hu He. rewrite Hget in Hu.
    destruct (get uid (memory_storage svc)) as [um0|]; [|discriminate].
    apply (swept_entries _ _ _ e) in Hu as [Hu _]. now apply Hu in He.
  - intros uid um Hu. rewrite Hget in Hu.
    destruct (get uid (memory_storage svc)) as [um0|]; [|discriminate].
    now apply (swept_entries _ _ _ (loaded_entry "e" "u" 0)) in Hu.
  - intros uid um e Hu He Hyoung.
    assert (Hafter : get uid after = swept (now - days 30) um)
      by now rewrite Hget, Hu.
    rewrite Hafter. unfold swept.
    destruct (filter (younger (now - days 30)) (entries um)) as [|x r] eqn:Ef.
    + exfalso.
      assert (Hin : In e (filter (younger (now - days 30)) (entries um))).
      { apply filter_In. split; [assumption | now apply Z.ltb_lt]. }
      rewrite Ef in Hin. contradiction.
    + eexists. split; [reflexivity|]. unfold with_entries, entries.
      rewrite <- Ef.
      apply filter_In. split; [assumption | now apply Z.ltb_lt].
Qed.

Lemma loadedb_loaded storage : loadedb storage = true -> loaded storage.
Proof.
  unfold loadedb, loaded. rewrite forallb_forall.
  intros H uid um e Hu He. apply get_some_in in Hu.
  specialize (H _ Hu). simpl in H. rewrite forallb_forall in H. auto.
Qed.

Lemma retention_sweep_witness :
  let after :=
    memory_storage (_cleanup_old_entries snapshot_service (days 100)) in
  option_map entries (get "u1" after) = Some [loaded_entry "e2" "u1" 71]
  /\ get "u2" after = None.
Proof.
  assert (Hwf : wf (memory_storage snapshot_service)).
  { unfold wf. simpl. repeat constructor; simpl; intuition discriminate. }
  destruct (retention_sweep snapshot_service (days 100) eq_refl Hwf
              (loadedb_loaded (memory_storage snapshot_service) eq_refl))
    as [H _].
  cbv zeta. rewrite !H. split; reflexivity.
Defined.

(** *** Context summary *)

Lemma filter_after_datetime bound es e :
  In e es -> is_datetime e = true -> filter_after bound es = Raise TypeError.
Proof.
  induction es as [|x r IH]; intros Hin He; [contradiction|]. simpl.
  destruct (MemoryEntry.timestamp x) as [us|us] eqn:Ex; [reflexivity|].
  destruct Hin as [->|Hin].
  - unfold is_datetime in He. now rewrite Ex in He.
  - simpl. now rewrite IH.
Qed.

(** While an entry with a [datetime] timestamp is in the list, no summary
    is built. *)
Lemma build_summary_in_process now es e :
  In e es -> is_datetime e = true ->
  exists x, build_summary now es = Raise x.
Proof.
  intros Hin He. unfold build_summary.
  destruct (sorted_checked ts_comparable ts_lt es); simpl; [|eauto].
  destruct (scan_entries _ _); simpl; [|eauto].
  unfold _calculate_activity_level.
  destruct es as [|x r]; [contradiction|].
  rewrite (filter_after_datetime _ _ e Hin He). simpl. eauto.
Qed.

(** C8 does not hold on the code.  Six interactions with intents [i1] to
    [i6] are stored for a new user, in that order.  The summary is not
    recomputed at all: the entries carry [datetime] timestamps, on which
    [_calculate_activity_level] raises, and the exception is swallowed.
    On the same entries as they come back from the snapshot the summary is
    built, and [recent_intents] is [i5, i4, i3, i2, i1]: the entries are
    scanned newest first and the last five intents of that scan are kept,
    where the claim has [i2, i3, i4, i5, i6].  A store call does recompute
    the summary when the new entry is cut at once: on a snapshot of a
    thousand purchases with intents [i1] to [i1000] it leaves
    [i985, ..., i981], the five oldest intents of the twenty latest
    entries, not the five latest. *)
Theorem recent_intents_divergence :
  let svc := store_all init six_calls in
  map intent_of (entries_of svc "u1")
  = [Some (PStr "i1"); Some (PStr "i2"); Some (PStr "i3");
     Some (PStr "i4"); Some (PStr "i5"); Some (PStr "i6")]
  /\ summary_of svc "u1" = None
  /\ build_summary 7000 (entries_of svc "u1") = Raise TypeError
  /\ recent_intents_of
       (build_summary 7000 (map as_loaded (entries_of svc "u1")))
     = Some [PStr "i5"; PStr "i4"; PStr "i3"; PStr "i2"; PStr "i1"]
  /\ option_map recent_intents
       (summary_of
          (store_call full_snapshot
             (mk_call "n" 2000000 (request "u1" "other" "i1001" None)))
          "u1")
     = Some [PStr "i985"; PStr "i984"; PStr "i983"; PStr "i982";
             PStr "i981"].
Proof. vm_compute. repeat split. Qed.

(** *** Capacity *)

Lemma key_lt_true_iff a b :
  key_lt a b = true
  <-> (MemoryEntry.relevance_score a < MemoryEntry.relevance_score b)%Q
      \/ (MemoryEntry.relevance_score a == MemoryEntry.relevance_score b
          /\ instant (MemoryEntry.timestamp a)
             < instant (MemoryEntry.timestamp b)).
Proof.
  unfold key_lt, Qlt_bool.
  rewrite orb_true_iff, andb_true_iff, negb_true_iff, Z.ltb_lt, Qeq_bool_iff.
  rewrite <- not_true_iff_false, Qle_bool_iff.
  split; (intros [H|H]; [left|now right]).
  - now apply Qnot_le_lt.
  - now apply Qlt_not_le.
Qed.

Lemma key_lt_false_iff a b :
  key_lt a b = false
  <-> (MemoryEntry.relevance_score b < MemoryEntry.relevance_score a)%Q
      \/ (MemoryEntry.relevance_score a == MemoryEntry.relevance_score b
          /\ instant (MemoryEntry.timestamp b)
             <= instant (MemoryEntry.timestamp a)).
Proof.
  rewrite <- not_true_iff_false, key_lt_true_iff.
  destruct (Q_dec (MemoryEntry.relevance_score a)
                  (MemoryEntry.relevance_score b)) as [[Hlt|Hgt]|Heq].
  - split; [intros H; exfalso; apply H; now left|].
    intros [H|[H _]] _; lra.
  - split; [now left|]. intros _ [H|[H _]]; lra.
  - split.
    + intros H. right. split; [assumption|].
      destruct (Z.le_gt_cases (instant (MemoryEntry.timestamp b))
                              (instant (MemoryEntry.timestamp a)));
        [assumption|]. exfalso. apply H. right. split; [assumption | lia].
    + intros [H|[_ H]] [H'|[_ H']]; try lra; lia.
Qed.

Lemma key_lt_asym a b : key_lt a b = true -> key_lt b a = false.
Proof.
  rewrite key_lt_true_iff, key_lt_false_iff.
  intros [H|[H1 H2]]; [now left|]. right. split; [lra | lia].
Qed.

Lemma key_ge_trans a b c :
  key_lt a b = false -> key_lt b c = false -> key_lt a c = false.
Proof.
  rewrite !key_lt_false_iff.
  intros [H|[H1 H2]] [H'|[H1' H2']];
    first [left; lra | right; split; [lra | lia]].
Qed.

Lemma datetime_comparable es :
  forallb is_datetime es = true ->
  forallb (fun a => forallb (key_comparable a) es) es = true.
Proof.
  intros H. rewrite forallb_forall in H.
  apply forallb_forall. intros a Ha. apply forallb_forall. intros b Hb.
  apply H in Ha, Hb. unfold is_datetime in Ha, Hb.
  unfold key_comparable, same_kind.
  destruct (MemoryEntry.timestamp a); [|discriminate].
  destruct (MemoryEntry.timestamp b); [|discriminate].
  apply orb_true_r.
Qed.

Lemma truncate_datetime cap es :
  forallb is_datetime es = true ->
  truncate cap es
  = Ok (if (cap <? List.length es)%nat
        then firstn cap (sorted_desc key_lt es) else es).
Proof.
  intros H. unfold truncate, sorted_checked.
  rewrite (datetime_comparable es H). now destruct (cap <? _)%nat.
Qed.

Lemma forallb_incl {A : Type} (f : A -> bool) (l l' : list A) :
  incl l' l -> forallb f l = true -> forallb f l' = true.
Proof.
  rewrite !forallb_forall. intros Hi H x Hx. apply H, Hi, Hx.
Qed.





(** At a capacity of one, a purchase followed by a question with one
    entity: the scores are [0.8] and [0.7999999999999999], so the purchase
    is kept although the question is the later of the two. *)
Lemma store_capacity_near_tie :
  map MemoryEntry.relevance_score (created near_calls)
  = [(3602879701896397 # 4503599627370496)%Q;
     (7205759403792793 # 9007199254740992)%Q]
  /\ map MemoryEntry.id (entries_of (store_all unit_service near_calls) "u1")
     = ["e1"].
Proof. vm_compute. split; reflexivity. Qed.



End MemorySpec.

(** ** Further properties of the session store *)

Module SessionExtra.
Import SessionService PyFacts Scenario Http SessionOps.

(** *** Dictionary facts used below *)

Lemma set_fresh {V : Type} (k : string) (v : V) (d : dict V) :
  get k d = None -> set k v d = d ++ [(k, v)].
Proof.
  induction d as [|[k' v'] r IH]; simpl; [reflexivity|].
  destruct (String.eqb_spec k k'); [discriminate|].
  intros H. now rewrite IH.
Qed.

Lemma filter_none {A : Type} (f : A -> bool) (l : list A) :
  (forall x, In x l -> f x = false) -> filter f l = [].
Proof.
  induction l as [|x r IH]; intros H; simpl; [reflexivity|].
  rewrite (H x) by now left. apply IH. intros y Hy. apply H. now right.
Qed.

Lemma get_fold_del_out {V : Type} (k : string) (l : list string)
    (d : dict V) :
  ~ In k l -> get k (fold_left (fun d x => del x d) l d) = get k d.
Proof.
  revert d. induction l as [|x r IH]; intros d H; simpl; [reflexivity|].
  rewrite IH by (intros Hin; apply H; now right).
  apply get_del_neq. intros ->. apply H. now left.
Qed.

Lemma wf_fold_del {V : Type} (l : list string) (d : dict V) :
  wf d -> wf (fold_left (fun d x => del x d) l d).
Proof.
  revert d. induction l as [|x r IH]; intros d H; simpl; [assumption|].
  apply IH. now apply wf_del.
Qed.

Lemma keys_fold_del_incl {V : Type} (l : list string) (d : dict V) :
  incl (keys (fold_left (fun d x => del x d) l d)) (keys d).
Proof.
  revert d. induction l as [|x r IH]; intros d; simpl; [apply incl_refl|].
  eapply incl_tran; [apply IH | apply keys_del_incl].
Qed.

(** *** The expiry sweep *)

Lemma expired_iff svc now sid :
  wf (active_sessions svc) ->
  In sid (map fst (filter (fun kv => timed_out svc now (snd kv))
                          (active_sessions svc)))
  <-> exists s, get sid (active_sessions svc) = Some s
                /\ timed_out svc now s = true.
Proof.
  intros Hwf. rewrite in_map_iff. split.
  - intros [[k s] [<- Hin]]. apply filter_In in Hin as [Hin Ht].
    exists s. split; [now apply in_get_some | exact Ht].
  - intros [s [Hs Ht]]. exists (sid, s). split; [reflexivity|].
    apply filter_In. split; [now apply get_some_in | exact Ht].
Qed.

Lemma sweep_get svc now sid :
  wf (active_sessions svc) ->
  get sid (active_sessions (_cleanup_expired_sessions svc now))
  = match get sid (active_sessions svc) with
    | Some s => if timed_out svc now s then None else Some s
    | None => None
    end.
Proof.
  intros Hwf. unfold _cleanup_expired_sessions. simpl.
  destruct (get sid (active_sessions svc)) as [s|] eqn:Es.
  - destruct (timed_out svc now s) eqn:Et.
    + apply SessionSpec.get_sweep_none; [assumption|]. left.
      apply expired_iff; eauto.
    + rewrite get_fold_del_out; [assumption|].
      intros Hin. apply expired_iff in Hin as [s' [Hs' Ht']]; [|assumption].
      congruence.
  - apply SessionSpec.get_sweep_none; auto.
Qed.

(** X1: the sweep removes exactly the sessions idle for more than
    [session_timeout]: a session is in the store afterwards if and only if
    it was there before and is not timed out, with its record unchanged;
    and a second sweep at the same instant changes nothing. *)
Theorem sweep_removes_exactly_expired svc now :
  wf (active_sessions svc) ->
  let after := _cleanup_expired_sessions svc now in
  (forall sid s,
      get sid (active_sessions after) = Some s
      <-> get sid (active_sessions svc) = Some s
          /\ now - last_activity s <= timeout_us svc)
  /\ wf (active_sessions after)
  /\ _cleanup_expired_sessions after now = after.
Proof.
  intros Hwf after.
  assert (Hget : forall sid s,
             get sid (active_sessions after) = Some s
             <-> get sid (active_sessions svc) = Some s
                 /\ timed_out svc now s = false).
  { intros sid s. subst after. rewrite sweep_get by assumption.
    destruct (get sid (active_sessions svc)) as [s0|];
      [|split; [discriminate | intros [? _]; discriminate]].
    destruct (timed_out svc now s0) eqn:Et.
    - split; [discriminate | intros [[= ->] H]; congruence].
    - split; [intros [= ->]; auto | intros [[= ->] _]; reflexivity]. }
  assert (Hwf' : wf (active_sessions after))
    by (subst after; simpl; now apply wf_fold_del).
  split; [|split; [assumption|]].
  - intros sid s. rewrite Hget.
    assert (Hto : timed_out svc now s = false
                  <-> now - last_activity s <= timeout_us svc).
    { rewrite <- not_true_iff_false, SessionSpec.timed_out_iff. lia. }
    now rewrite Hto.
  - unfold _cleanup_expired_sessions at 1.
    assert (Hnone : filter (fun kv => timed_out after now (snd kv))
                      (active_sessions after) = []).
    { apply filter_none. intros [k s] Hin. simpl.
      apply (in_get_some k s _ Hwf') in Hin.
      apply Hget in Hin as [_ Ht]. exact Ht. }
    rewrite Hnone. subst after. reflexivity.
Qed.

Lemma sample_service_wf : wf (active_sessions sample_service).
Proof. unfold wf. simpl. repeat constructor; simpl; intuition discriminate. Qed.

Lemma sweep_removes_exactly_expired_witness :
  keys (active_sessions (_cleanup_expired_sessions sample_service 3600000040))
  = ["a"; "c"].
Proof.
  destruct (sweep_removes_exactly_expired sample_service 3600000040
              sample_service_wf) as [_ [_ H]].
  reflexivity.
Defined.

(** *** Deleting a session *)

(** X2: [delete_session] returns [True] exactly when the session is in the
    store; afterwards the session is gone (a read returns nothing, its
    context is empty, a second delete returns [False]) and every other
    session is as before. *)
Theorem delete_session_spec svc sid :
  wf (active_sessions svc) ->
  let r := delete_session svc sid in
  (snd r = true <-> get sid (active_sessions svc) <> None)
  /\ get sid (active_sessions (fst r)) = None
  /\ (forall k, k <> sid ->
                get k (active_sessions (fst r)) = get k (active_sessions svc))
  /\ snd (delete_session (fst r) sid) = false
  /\ (forall now, snd (get_session (fst r) now sid) = None)
  /\ get_session_context (fst r) sid = [].
Proof.
  intros Hwf r.
  assert (Hgone : get sid (active_sessions (fst r)) = None).
  { subst r. unfold delete_session, contains.
    destruct (get sid (active_sessions svc)) eqn:E; simpl;
      [now apply get_del_eq | assumption]. }
  split; [|split; [exact Hgone|split; [|split; [|split]]]].
  - subst r. unfold delete_session, contains.
    destruct (get sid (active_sessions svc)); simpl;
      split; congruence.
  - intros k Hk. subst r. unfold delete_session, contains.
    destruct (get sid (active_sessions svc)); simpl; [|reflexivity].
    apply get_del_neq. congruence.
  - unfold delete_session, contains. now rewrite Hgone.
  - intros now. unfold get_session. now rewrite Hgone.
  - unfold get_session_context. now rewrite Hgone.
Qed.

Lemma delete_session_spec_witness :
  snd (delete_session sample_service "b") = true
  /\ get "b" (active_sessions (fst (delete_session sample_service "b")))
     = None.
Proof.
  destruct (delete_session_spec sample_service "b" sample_service_wf)
    as [H1 [H2 _]].
  split; [apply H1; discriminate | exact H2].
Defined.

(** *** Listing the sessions of a user *)

(** X3: [get_user_sessions] returns exactly the records of the user that
    are idle for at most [session_timeout]; for a session of the user it
    agrees with [get_session], which returns the record under the same
    condition. *)
Theorem get_user_sessions_spec svc now uid :
  wf (active_sessions svc) ->
  (forall info,
      In info (get_user_sessions svc now uid)
      <-> exists sid s,
            get sid (active_sessions svc) = Some s
            /\ user_id s = uid
            /\ now - last_activity s <= timeout_us svc
            /\ info = to_info s)
  /\ (forall info,
        In info (get_user_sessions svc now uid) ->
        SessionInfo.user_id info = uid
        /\ now - SessionInfo.last_activity info <= timeout_us svc)
  /\ (forall sid s,
        get sid (active_sessions svc) = Some s -> user_id s = uid ->
        (In (to_info s) (get_user_sessions svc now uid)
         <-> snd (get_session svc now sid) = Some (to_info s))).
Proof.
  intros Hwf.
  assert (Hto : forall s, timed_out svc now s = false
                          <-> now - last_activity s <= timeout_us svc).
  { intros s. rewrite <- not_true_iff_false, SessionSpec.timed_out_iff. lia. }
  assert (Hin : forall info,
             In info (get_user_sessions svc now uid)
             <-> exists sid s,
                   get sid (active_sessions svc) = Some s
                   /\ user_id s = uid
                   /\ now - last_activity s <= timeout_us svc
                   /\ info = to_info s).
  { intros info. unfold get_user_sessions. rewrite in_map_iff. split.
    - intros [[k s] [<- H]]. apply filter_In in H as [H Hp].
      apply andb_prop in Hp as [Hu Ht]. simpl in *.
      exists k, s. repeat split.
      + now apply in_get_some.
      + now apply String.eqb_eq.
      + apply Hto. now apply negb_true_iff.
    - intros [sid [s [Hs [Hu [Ht ->]]]]]. exists (sid, s).
      split; [reflexivity|]. apply filter_In.
      split; [now apply get_some_in|]. simpl.
      apply andb_true_intro. split; [now apply String.eqb_eq|].
      apply negb_true_iff. now apply Hto. }
  split; [exact Hin|split].
  - intros info H. apply Hin in H as [sid [s [_ [Hu [Ht ->]]]]].
    split; assumption.
  - intros sid s Hs Hu. rewrite Hin. unfold get_session. rewrite Hs.
    destruct (timed_out svc now s) eqn:Et; simpl.
    + split; [|discriminate].
      intros [sid' [s' [_ [_ [Ht' Heq]]]]].
      apply Hto in Ht'. apply SessionSpec.timed_out_iff in Et.
      apply (f_equal SessionInfo.last_activity) in Heq. simpl in Heq.
      apply not_true_iff_false in Ht'. exfalso. apply Ht'.
      apply SessionSpec.timed_out_iff. now rewrite <- Heq.
    + split; [reflexivity|]. intros _. exists sid, s.
      repeat split; try assumption. now apply Hto.
Qed.

Lemma get_user_sessions_spec_witness :
  map SessionInfo.session_id (get_user_sessions sample_service 3600000040 "u1")
  = ["a"; "c"]
  /\ forall info,
       In info (get_user_sessions sample_service 3600000040 "u1") ->
       SessionInfo.user_id info = "u1".
Proof.
  destruct (get_user_sessions_spec sample_service 3600000040 "u1"
              sample_service_wf) as [_ [H _]].
  split; [reflexivity|]. intros info Hin. now apply H.
Defined.

(** *** Creating a session below the quota *)

Lemma evict_below_quota svc uid :
  (session_count svc uid < max_sessions_per_user svc)%nat ->
  evict_oldest svc uid = Ok (active_sessions svc).
Proof.
  unfold session_count, evict_oldest. intros H.
  destruct (Nat.leb_spec (max_sessions_per_user svc)
              (List.length (user_sessions_of (active_sessions svc) uid)));
    [lia | reflexivity].
Qed.

Lemma user_sessions_app d1 d2 uid :
  user_sessions_of (d1 ++ d2) uid
  = user_sessions_of d1 uid ++ user_sessions_of d2 uid.
Proof. unfold user_sessions_of. now rewrite filter_app, map_app. Qed.

(** X4: while the user holds fewer than [max_sessions_per_user] sessions,
    [create_session] with a fresh identifier evicts nothing: the store
    grows by the new session alone, which comes last, every existing
    session is untouched, and the user holds one session more. *)
Theorem create_session_below_quota svc new_id now uid udata :
  get new_id (active_sessions svc) = None ->
  (session_count svc uid < max_sessions_per_user svc)%nat ->
  let r := create_session svc new_id now uid udata in
  success (snd r) = true
  /\ (exists sn, active_sessions (fst r) = active_sessions svc ++ [(new_id, sn)]
                 /\ session_info (snd r) = Some (to_info sn)
                 /\ user_id sn = uid /\ created_at sn = now
                 /\ last_activity sn = now /\ interaction_count sn = 0
                 /\ context sn = [] /\ status sn = "active")
  /\ (forall sid, sid <> new_id ->
        get sid (active_sessions (fst r)) = get sid (active_sessions svc))
  /\ session_count (fst r) uid = S (session_count svc uid).
Proof.
  intros Hfresh Hquota r. subst r. unfold create_session.
  rewrite (evict_below_quota svc uid Hquota). simpl.
  rewrite (set_fresh _ _ _ Hfresh).
  split; [reflexivity|]. split; [|split].
  - eexists. split; [reflexivity|]. simpl. repeat split.
  - intros sid Hne. rewrite <- (set_fresh _ _ _ Hfresh).
    apply get_set_neq. congruence.
  - unfold session_count. simpl. rewrite user_sessions_app, length_app.
    unfold user_sessions_of at 2. simpl. rewrite String.eqb_refl. simpl. lia.
Qed.

Lemma create_session_below_quota_witness :
  keys (active_sessions
          (fst (create_session sample_service "n" 1000 "u2" None)))
  = ["a"; "b"; "c"; "n"].
Proof.
  destruct (create_session_below_quota sample_service "n" 1000 "u2" None
              eq_refl) as [_ [_ _]].
  - vm_compute. lia.
  - reflexivity.
Defined.

(** *** Runs of the service *)

Lemma get_del_some (k sid : string) (s : session_data)
    (d : dict session_data) :
  wf d -> get k (del sid d) = Some s -> get k d = Some s.
Proof.
  intros Hwf H. destruct (String.eqb_spec k sid) as [->|Hne].
  - rewrite get_del_eq in H by assumption. discriminate.
  - rewrite get_del_neq in H by congruence. exact H.
Qed.

Lemma count_del_le (d : dict session_data) k uid :
  (List.length (user_sessions_of (del k d) uid)
   <= List.length (user_sessions_of d uid))%nat.
Proof.
  unfold user_sessions_of. rewrite !length_map.
  induction d as [|[k' v'] r IH]; simpl; [lia|].
  destruct (String.eqb k k'); simpl;
    destruct (String.eqb (user_id v') uid); simpl; lia.
Qed.

Lemma count_del (d : dict session_data) k s uid :
  get k d = Some s ->
  (List.length (user_sessions_of (del k d) uid)
   + (if String.eqb (user_id s) uid then 1 else 0)
   = List.length (user_sessions_of d uid))%nat.
Proof.
  unfold user_sessions_of. rewrite !length_map.
  induction d as [|[k' v'] r IH]; simpl; [discriminate|].
  destruct (String.eqb_spec k k') as [->|Hne].
  - intros [= ->]. destruct (String.eqb (user_id s) uid); simpl; lia.
  - intros H. specialize (IH H). simpl.
    destruct (String.eqb (user_id v') uid); simpl; lia.
Qed.

Lemma user_sessions_set_same (d : dict session_data) k s s' uid :
  get k d = Some s -> user_id s' = user_id s ->
  user_sessions_of (set k s' d) uid = user_sessions_of d uid.
Proof.
  intros H Hu. induction d as [|[k' v'] r IH]; [discriminate|].
  simpl in H. simpl set.
  destruct (String.eqb_spec k k') as [->|Hne].
  - injection H as ->. unfold user_sessions_of. simpl. rewrite Hu.
    now destruct (String.eqb (user_id s) uid).
  - specialize (IH H). unfold user_sessions_of in *. simpl.
    destruct (String.eqb (user_id v') uid); simpl; now rewrite IH.
Qed.

Lemma evict_oldest_cases svc uid d' :
  wf (active_sessions svc) ->
  evict_oldest svc uid = Ok d' ->
  (d' = active_sessions svc
   /\ (session_count svc uid < max_sessions_per_user svc)%nat)
  \/ (exists oldest so,
        d' = del oldest (active_sessions svc)
        /\ get oldest (active_sessions svc) = Some so
        /\ user_id so = uid
        /\ (max_sessions_per_user svc <= session_count svc uid)%nat).
Proof.
  intros Hwf. unfold evict_oldest, session_count.
  destruct (Nat.leb_spec (max_sessions_per_user svc)
              (List.length (user_sessions_of (active_sessions svc) uid)))
    as [Hge|Hlt]; [|intros [= <-]; now left].
  destruct (user_sessions_of (active_sessions svc) uid) as [|x r] eqn:Eus;
    [discriminate|].
  simpl. intros [= <-]. right.
  destruct (min_from_spec (created_at_of (active_sessions svc)) r x)
    as [Hin _].
  rewrite <- Eus in Hin.
  apply (SessionSpec.user_sessions_of_iff _ uid _ Hwf) in Hin
    as [so [Hso Hu]].
  eauto 6.
Qed.

Lemma delete_keeps_invariant used svc k :
  run_invariant used svc ->
  run_invariant used (with_sessions svc (del k (active_sessions svc))).
Proof.
  intros [Hwf [Hkeys [Hrec [Hquota [Hmax Hto]]]]].
  unfold run_invariant, session_count. simpl.
  split; [now apply wf_del|]. split; [|split; [|split; [|split]]].
  - eapply incl_tran; [apply keys_del_incl | assumption].
  - intros sid s H. apply Hrec. now apply (get_del_some _ k).
  - intros uid. specialize (Hquota uid). unfold session_count in Hquota.
    pose proof (count_del_le (active_sessions svc) k uid). lia.
  - assumption.
  - assumption.
Qed.

Lemma sweep_keeps_invariant used svc l :
  run_invariant used svc ->
  run_invariant used
    (with_sessions svc (fold_left (fun d x => del x d) l
                                  (active_sessions svc))).
Proof.
  revert svc. induction l as [|x r IH]; intros svc H; simpl.
  - now destruct svc.
  - apply (IH (with_sessions svc (del x (active_sessions svc)))).
    now apply delete_keeps_invariant.
Qed.

Lemma step_keeps_invariant used svc o :
  run_invariant used svc ->
  (forall i, In i (created_ids [o]) -> ~ In i used) ->
  run_invariant (created_ids [o] ++ used) (step svc o).
Proof.
  intros Hinv Hfresh.
  assert (Hweak : forall svc', run_invariant used svc' ->
                               run_invariant (created_ids [o] ++ used) svc').
  { intros svc' [H1 [H2 H3]]. split; [assumption|]. split; [|assumption].
    apply incl_appr. assumption. }
  destruct o as [new_id now uid udata|now sid|now sid ctx|sid|now]; simpl.
  - (* create *)
    destruct Hinv as [Hwf [Hkeys [Hrec [Hquota [Hmax Hto]]]]].
    assert (Hnew : get new_id (active_sessions svc) = None).
    { apply get_none_iff. intros Hin. apply (Hfresh new_id); [now left|].
      now apply Hkeys. }
    unfold create_session.
    destruct (evict_oldest svc uid) as [d'|x] eqn:Ev;
      [|simpl; apply Hweak; unfold run_invariant; tauto].
    simpl fst.
    assert (Hd' : wf d' /\ incl (keys d') (keys (active_sessions svc))
                  /\ (forall k s, get k d' = Some s ->
                                  get k (active_sessions svc) = Some s)
                  /\ forall u,
                       (List.length (user_sessions_of d' u)
                        + (if String.eqb uid u then 1 else 0)
                        <= max_sessions_per_user svc)%nat).
    { apply (evict_oldest_cases svc uid d' Hwf) in Ev
        as [[-> Hlt]|[oldest [so [-> [Hso [Hu Hge]]]]]].
      - repeat split; try assumption; [apply incl_refl | auto |].
        intros u. specialize (Hquota u). unfold session_count in *.
        destruct (String.eqb_spec uid u) as [<-|]; lia.
      - repeat split; [now apply wf_del | apply keys_del_incl | |].
        + intros k s. now apply get_del_some.
        + intros u. specialize (Hquota u). unfold session_count in *.
          pose proof (count_del (active_sessions svc) oldest so u Hso) as Hc.
          rewrite Hu in Hc. destruct (String.eqb uid u); lia. }
    destruct Hd' as [Hwf' [Hk' [Hg' Hq']]].
    assert (Hnew' : get new_id d' = None).
    { apply get_none_iff. intros Hin. apply Hk' in Hin.
      now apply get_none_iff in Hnew. }
    unfold run_invariant, session_count. simpl.
    split; [now apply wf_set|]. split; [|split; [|split; [|split]]].
    + rewrite keys_set. unfold contains. rewrite Hnew'.
      intros k Hk. apply in_app_or in Hk as [Hk|[<-|[]]];
        [right; apply Hkeys, Hk', Hk | now left].
    + intros sid s. destruct (String.eqb_spec new_id sid) as [<-|Hne].
      * rewrite get_set_eq. intros [= <-]. repeat split. simpl. lia.
      * rewrite get_set_neq by assumption. intros H. apply Hrec, Hg', H.
    + intros u. rewrite (set_fresh _ _ _ Hnew'), user_sessions_app, length_app.
      specialize (Hq' u). unfold user_sessions_of at 2. simpl.
      destruct (String.eqb uid u); simpl in *; lia.
    + assumption.
    + assumption.
  - (* get *)
    apply Hweak. unfold get_session.
    destruct (get sid (active_sessions svc)) as [s|]; [|assumption].
    destruct (timed_out svc now s); [|assumption].
    now apply delete_keeps_invariant.
  - (* update *)
    apply Hweak. unfold update_session_activity.
    destruct (get sid (active_sessions svc)) as [s|] eqn:Es; [|assumption].
    destruct Hinv as [Hwf [Hkeys [Hrec [Hquota [Hmax Hto]]]]].
    simpl. unfold run_invariant, session_count. simpl.
    split; [now apply wf_set|]. split; [|split; [|split; [|split]]].
    + rewrite keys_set. unfold contains. now rewrite Es.
    + intros k s'. destruct (String.eqb_spec sid k) as [<-|Hne].
      * rewrite get_set_eq. intros [= <-].
        destruct (Hrec sid s Es) as [H1 [H2 H3]].
        repeat split; simpl; try assumption. lia.
      * rewrite get_set_neq by assumption. apply Hrec.
    + intros u. rewrite (user_sessions_set_same _ sid s) by auto.
      apply Hquota.
    + assumption.
    + assumption.
  - (* delete *)
    apply Hweak. unfold delete_session.
    destruct (contains sid (active_sessions svc)); [|assumption].
    now apply delete_keeps_invariant.
  - (* sweep *)
    apply Hweak. unfold _cleanup_expired_sessions.
    now apply sweep_keeps_invariant.
Qed.

Lemma created_ids_cons o ops :
  created_ids (o :: ops) = created_ids [o] ++ created_ids ops.
Proof. unfold created_ids. simpl. now rewrite app_nil_r. Qed.

Lemma run_keeps_invariant ops :
  forall used svc,
    run_invariant used svc ->
    NoDup (created_ids ops) ->
    (forall i, In i (created_ids ops) -> ~ In i used) ->
    run_invariant (rev (created_ids ops) ++ used) (run svc ops).
Proof.
  induction ops as [|o r IH]; intros used svc Hinv Hnd Hfresh.
  - assumption.
  - change (run svc (o :: r)) with (run (step svc o) r).
    rewrite created_ids_cons in *.
    assert (H1 : run_invariant (created_ids [o] ++ used) (step svc o)).
    { apply step_keeps_invariant; [assumption|].
      intros i Hi. apply Hfresh. apply in_or_app; now left. }
    apply NoDup_app_remove_l in Hnd as Hnd'.
    specialize (IH _ _ H1 Hnd').
    rewrite rev_app_distr, <- app_assoc.
    assert (Hrev : rev (created_ids [o]) = created_ids [o])
      by (destruct o; reflexivity).
    rewrite Hrev. apply IH.
    intros i Hi Hin. apply in_app_or in Hin as [Hin|Hin].
    + destruct o; simpl in Hin; try contradiction.
      destruct Hin as [<-|[]]. simpl in Hnd.
      inversion Hnd as [|? ? Hnot _]; subst. contradiction.
    + apply (Hfresh i); [apply in_or_app; now right | assumption].
Qed.

Lemma init_invariant : run_invariant [] SessionService.init.
Proof.
  unfold run_invariant, session_count. simpl.
  repeat split; try (intros; discriminate); try lia;
    [constructor | intros x []].
Qed.

(** X5: in every run of the service from its initial state (creations,
    reads, updates, deletions and sweeps in any order, each creation with
    a new identifier) no user ever holds more than
    [max_sessions_per_user] = 5 sessions. *)
Theorem run_keeps_quota ops uid :
  NoDup (created_ids ops) ->
  (session_count (run SessionService.init ops) uid <= 5)%nat.
Proof.
  intros Hnd.
  destruct (run_keeps_invariant ops [] _ init_invariant Hnd
              (fun _ _ H => H)) as [_ [_ [_ [Hq [Hmax _]]]]].
  specialize (Hq uid). rewrite Hmax in Hq. exact Hq.
Qed.

(** X6: in every such run each stored record sits under its own
    [session_id], which is one of the identifiers generated in the run, its
    [status] is "active" (no operation ever writes another status) and its
    [interaction_count] is not negative. *)
Theorem run_keeps_records ops sid s :
  NoDup (created_ids ops) ->
  get sid (active_sessions (run SessionService.init ops)) = Some s ->
  session_id s = sid
  /\ status s = "active"
  /\ 0 <= interaction_count s
  /\ In sid (created_ids ops).
Proof.
  intros Hnd Hs.
  destruct (run_keeps_invariant ops [] _ init_invariant Hnd
              (fun _ _ H => H)) as [_ [Hk [Hrec _]]].
  destruct (Hrec sid s Hs) as [H1 [H2 H3]].
  repeat split; try assumption.
  rewrite app_nil_r in Hk. apply in_rev. apply Hk.
  apply get_some_in in Hs. change sid with (fst (sid, s)).
  now apply in_map.
Qed.

Lemma sample_run_ids : NoDup (created_ids sample_run).
Proof. simpl. repeat constructor; simpl; intuition discriminate. Qed.

Lemma run_keeps_quota_witness :
  (session_count (run SessionService.init sample_run) "u1" <= 5)%nat
  /\ keys (active_sessions (run SessionService.init sample_run))
     = ["s3"; "s5"; "s6"].
Proof.
  split; [|reflexivity].
  exact (run_keeps_quota sample_run "u1" sample_run_ids).
Defined.

Lemma run_keeps_records_witness :
  exists s,
    get "s3" (active_sessions (run SessionService.init sample_run)) = Some s
    /\ session_id s = "s3" /\ status s = "active"
    /\ interaction_count s = 1.
Proof.
  eexists. split; [reflexivity|].
  destruct (run_keeps_records sample_run "s3" _ sample_run_ids eq_refl)
    as [H1 [H2 _]].
  split; [exact H1|]. split; [exact H2 | reflexivity].
Defined.

Lemma evict_oldest_sub svc uid d' :
  wf (active_sessions svc) ->
  evict_oldest svc uid = Ok d' ->
  forall k s, get k d' = Some s -> get k (active_sessions svc) = Some s.
Proof.
  intros Hwf Hev k s.
  apply (evict_oldest_cases svc uid d' Hwf) in Hev
    as [[-> _]|[oldest [so [-> _]]]]; [auto | now apply get_del_some].
Qed.

Lemma get_fold_del_some (k : string) (s : session_data) (l : list string)
    (d : dict session_data) :
  wf d ->
  get k (fold_left (fun d x => del x d) l d) = Some s -> get k d = Some s.
Proof.
  revert d. induction l as [|x r IH]; intros d Hwf H; simpl in H;
    [assumption|].
  apply (get_del_some k x s d Hwf). apply IH; [now apply wf_del | exact H].
Qed.

Lemma times_ok_later t t' s : t <= t' -> times_ok t s -> times_ok t' s.
Proof. unfold times_ok. lia. Qed.

Lemma step_keeps_clock t svc o :
  wf (active_sessions svc) ->
  clock_invariant t svc ->
  (forall now, op_time o = Some now -> t <= now) ->
  clock_invariant (match op_time o with Some now => now | None => t end)
                  (step svc o).
Proof.
  intros Hwf Hinv Ht.
  destruct o as [new_id now uid udata|now sid|now sid ctx|sid|now]; simpl;
    try specialize (Ht now eq_refl); intros k s.
  - unfold create_session.
    destruct (evict_oldest svc uid) as [d'|x] eqn:Ev; simpl.
    + destruct (String.eqb_spec new_id k) as [<-|Hne].
      * rewrite get_set_eq. intros [= <-]. unfold times_ok. simpl. lia.
      * rewrite get_set_neq by assumption. intros H.
        apply (times_ok_later t); [assumption|].
        apply (Hinv k). now apply (evict_oldest_sub svc uid d').
    + intros H. apply (times_ok_later t); [assumption | now apply (Hinv k)].
  - unfold get_session.
    destruct (get sid (active_sessions svc)) as [s0|]; simpl;
      [destruct (timed_out svc now s0); simpl|];
      intros H; apply (times_ok_later t); try assumption;
      apply (Hinv k); try assumption.
    now apply (get_del_some k sid).
  - unfold update_session_activity.
    destruct (get sid (active_sessions svc)) as [s0|] eqn:E0; simpl.
    + destruct (String.eqb_spec sid k) as [<-|Hne].
      * rewrite get_set_eq. intros [= <-].
        destruct (Hinv sid s0 E0) as [H1 H2]. unfold times_ok. simpl. lia.
      * rewrite get_set_neq by assumption. intros H.
        apply (times_ok_later t); [assumption | now apply (Hinv k)].
    + intros H. apply (times_ok_later t); [assumption | now apply (Hinv k)].
  - unfold delete_session.
    destruct (contains sid (active_sessions svc)); simpl; intros H;
      apply (Hinv k); [now apply (get_del_some k sid) | assumption].
  - intros H. apply (times_ok_later t); [assumption|].
    apply (Hinv k). unfold _cleanup_expired_sessions in H. simpl in H.
    eapply get_fold_del_some; eassumption.
Qed.

Lemma run_keeps_clock ops :
  forall used t svc,
    run_invariant used svc -> clock_invariant t svc ->
    NoDup (created_ids ops) ->
    (forall i, In i (created_ids ops) -> ~ In i used) ->
    clock_from t ops ->
    exists t', t <= t' /\ clock_invariant t' (run svc ops).
Proof.
  induction ops as [|o r IH]; intros used t svc Hinv Hclk Hnd Hfresh Hmono.
  - exists t. split; [lia | assumption].
  - change (run svc (o :: r)) with (run (step svc o) r).
    rewrite created_ids_cons in *.
    assert (H1 : run_invariant (created_ids [o] ++ used) (step svc o)).
    { apply step_keeps_invariant; [assumption|].
      intros i Hi. apply Hfresh. apply in_or_app; now left. }
    assert (Hstep : forall now, op_time o = Some now -> t <= now).
    { intros now Ho. simpl in Hmono. rewrite Ho in Hmono. tauto. }
    pose proof (step_keeps_clock t svc o (proj1 Hinv) Hclk Hstep) as H2.
    assert (Hrest : clock_from (match op_time o with
                                | Some now => now
                                | None => t
                                end) r).
    { simpl in Hmono. destruct (op_time o); tauto. }
    destruct (IH _ _ _ H1 H2 (NoDup_app_remove_l _ _ Hnd)) as [t' [Hle H']];
      [|assumption|].
    + intros i Hi Hin. apply in_app_or in Hin as [Hin|Hin].
      * destruct o; simpl in Hin; try contradiction.
        destruct Hin as [<-|[]]. simpl in Hnd.
        inversion Hnd as [|? ? Hnot _]; subst. contradiction.
      * apply (Hfresh i); [apply in_or_app; now right | assumption].
    + exists t'. split; [|assumption].
      destruct (op_time o) as [now|] eqn:Eo; [|assumption].
      specialize (Hstep now eq_refl). lia.
Qed.

(** X7: in every run from the initial state whose clock readings never go
    back, each stored record has [created_at <= last_activity]. *)
Theorem run_keeps_activity_after_creation ops t0 sid s :
  NoDup (created_ids ops) ->
  clock_from t0 ops ->
  get sid (active_sessions (run SessionService.init ops)) = Some s ->
  created_at s <= last_activity s.
Proof.
  intros Hnd Hmono Hs.
  assert (Hinit : clock_invariant t0 SessionService.init)
    by (intros k s'; discriminate).
  destruct (run_keeps_clock ops [] t0 _ init_invariant Hinit
              Hnd (fun _ _ H => H) Hmono) as [t' [_ H]].
  exact (proj1 (H sid s Hs)).
Qed.

Lemma run_keeps_activity_after_creation_witness :
  exists s,
    get "s3" (active_sessions (run SessionService.init sample_run)) = Some s
    /\ created_at s = 3000 /\ last_activity s = 7000
    /\ created_at s <= last_activity s.
Proof.
  eexists. split; [reflexivity|]. split; [reflexivity|].
  split; [reflexivity|].
  apply (run_keeps_activity_after_creation sample_run 0 "s3" _
           sample_run_ids).
  - simpl. repeat split; lia.
  - reflexivity.
Defined.

(** *** Routes *)

Lemma evict_oldest_total svc uid :
  (0 < max_sessions_per_user svc)%nat ->
  exists d', evict_oldest svc uid = Ok d'.
Proof.
  intros Hpos. unfold evict_oldest.
  destruct (Nat.leb_spec (max_sessions_per_user svc)
              (List.length (user_sessions_of (active_sessions svc) uid)))
    as [Hge|Hlt]; [|eauto].
  destruct (user_sessions_of (active_sessions svc) uid);
    [simpl in Hge; lia | simpl; eauto].
Qed.

(** X8: the creation route rejects a user id that is empty or made of
    white space only (the white space of Unicode, as [str.strip] has it)
    with status 400 and leaves the store alone.  With an initial context it creates the session
    and at once records one activity on it: the response still shows
    [interaction_count = 0] and the creation time, whereas the stored
    session has [interaction_count = 1], the later [last_activity] and the
    given context. *)
Theorem route_create_session_spec svc new_id now now' request :
  (blank (request_user_id request) = true ->
   route_create_session svc new_id now now' request = (svc, Error 400))
  /\ (blank (request_user_id request) = false ->
      (0 < max_sessions_per_user svc)%nat ->
      forall c, request_context request = Some c -> truthy c = true ->
                wf c ->
      exists svc' response info s,
        route_create_session svc new_id now now' request
        = (svc', Body response)
        /\ success response = true
        /\ session_info response = Some info
        /\ SessionInfo.interaction_count info = 0
        /\ SessionInfo.last_activity info = now
        /\ get new_id (active_sessions svc') = Some s
        /\ interaction_count s = 1
        /\ last_activity s = now'
        /\ created_at s = now
        /\ user_id s = request_user_id request
        /\ forall k, get k (context s) = get k c).
Proof.
  unfold route_create_session. split.
  - now intros ->.
  - intros -> Hpos c Hc Htruthy Hwfc.
    unfold create_session.
    destruct (evict_oldest_total svc (request_user_id request) Hpos)
      as [d' ->].
    rewrite Hc. cbv zeta. simpl session_info. simpl success.
    rewrite Htruthy. simpl andb. cbv iota.
    unfold update_session_activity. simpl active_sessions.
    simpl SessionInfo.session_id.
    rewrite get_set_eq. rewrite Htruthy. simpl.
    do 4 eexists. split; [reflexivity|].
    repeat (split; [reflexivity|]).
    split; [apply get_set_eq|]. simpl.
    repeat (split; [reflexivity|]).
    intros k. rewrite get_update by assumption.
    now destruct (get k c).
Qed.

Lemma route_create_session_spec_witness :
  let request :=
    {| request_user_id := "u9"; request_user_data := None;
       request_context := Some [("topic", PStr "billing")] |} in
  let nbsp := String (ascii_of_nat 194) (String (ascii_of_nat 160)
                                                EmptyString) in
  (exists svc' response s,
      route_create_session SessionService.init "n" 1000 1005 request
      = (svc', Body response)
      /\ option_map SessionInfo.interaction_count (session_info response)
         = Some 0
      /\ get "n" (active_sessions svc') = Some s
      /\ interaction_count s = 1)
  /\ route_create_session SessionService.init "n" 1000 1005
       {| request_user_id := nbsp; request_user_data := None;
          request_context := None |}
     = (SessionService.init, Error 400).
Proof.
  cbv zeta. split;
    [|destruct (route_create_session_spec SessionService.init "n" 1000 1005
                  {| request_user_id :=
                       String (ascii_of_nat 194)
                         (String (ascii_of_nat 160) EmptyString);
                     request_user_data := None;
                     request_context := None |}) as [H _];
      exact (H eq_refl)].
  destruct (route_create_session_spec SessionService.init "n" 1000 1005
              {| request_user_id := "u9"; request_user_data := None;
                 request_context := Some [("topic", PStr "billing")] |})
    as [_ H].
  destruct (H eq_refl) with (c := [("topic", PStr "billing")])
    as [svc' [response [info [s [H1 [_ [H3 [H4 [_ [H6 [H7 _]]]]]]]]]]].
  - vm_compute. lia.
  - reflexivity.
  - reflexivity.
  - unfold wf. simpl. repeat constructor. simpl. tauto.
  - exists svc', response, s. split; [exact H1|].
    split; [now rewrite H3, <- H4|]. split; assumption.
Defined.

(** X9: for a session that is in the store but idle for more than
    [session_timeout], [GET /info] answers 404 and removes the session, so
    that [DELETE /delete] for the same session then answers 404 as well. *)
Theorem route_info_then_delete_expired svc now sid s :
  wf (active_sessions svc) ->
  get sid (active_sessions svc) = Some s ->
  timeout_us svc < now - last_activity s ->
  let r := route_get_session_info svc now sid in
  snd r = Error 404
  /\ get sid (active_sessions (fst r)) = None
  /\ snd (route_delete_session (fst r) sid) = Error 404
  /\ fst (route_delete_session (fst r) sid) = fst r.
Proof.
  intros Hwf Hs Hidle r.
  assert (Hto : timed_out svc now s = true)
    by now apply SessionSpec.timed_out_iff.
  assert (Hr : r = (with_sessions svc (del sid (active_sessions svc)),
                    Error 404)).
  { subst r. unfold route_get_session_info, get_session.
    now rewrite Hs, Hto. }
  rewrite Hr. simpl fst. simpl snd.
  assert (Hgone : get sid (del sid (active_sessions svc)) = None)
    by now apply get_del_eq.
  split; [reflexivity|]. split; [exact Hgone|].
  unfold route_delete_session, delete_session, contains. simpl.
  rewrite Hgone. split; reflexivity.
Qed.

Lemma route_info_then_delete_expired_witness :
  snd (route_get_session_info sample_service 3600000031 "b") = Error 404
  /\ snd (route_delete_session
            (fst (route_get_session_info sample_service 3600000031 "b"))
            "b") = Error 404.
Proof.
  destruct (route_info_then_delete_expired sample_service 3600000031 "b"
              (snd (sample "b" 20 30)) sample_service_wf eq_refl)
    as [H1 [_ [H2 _]]].
  - vm_compute. reflexivity.
  - split; assumption.
Defined.

End SessionExtra.

(** ** Further properties of the memory store *)

Module MemoryExtra.
Import MemoryService PyFacts Scenario Http MemoryOps.

Import MemorySpec.

(** *** Ranking *)

Section TopRanked.
Context {A : Type} (lt : A -> A -> bool).
Hypothesis lt_asym : forall x y, lt x y = true -> lt y x = false.
Hypothesis ge_trans :
  forall x y z, lt x y = false -> lt y z = false -> lt x z = false.

(** The first [limit] elements of the sorted list are the highest ranked
    ones, in descending order. *)
Lemma top_ranked (limit : Z) (l : list A) :
  0 <= limit ->
  let ranked := slice_to limit (sorted_desc lt l) in
  exists rest,
    Permutation l (ranked ++ rest)
    /\ List.length ranked = Nat.min (Z.to_nat limit) (List.length l)
    /\ StronglySorted (not_below lt) ranked
    /\ forall k r, In k ranked -> In r rest -> lt k r = false.
Proof.
  intros Hlimit ranked. subst ranked. unfold slice_to.
  destruct (Z.ltb_spec limit 0) as [Hneg|_]; [lia|].
  pose proof (sorted_desc_sorted lt lt_asym ge_trans l) as Hs.
  exists (skipn (Z.to_nat limit) (sorted_desc lt l)).
  split; [|split; [|split]].
  - rewrite firstn_skipn. apply sorted_desc_perm.
  - now rewrite length_firstn, sorted_desc_length.
  - now apply sorted_prefix_sorted.
  - intros k r. now apply sorted_prefix_ge.
Qed.
End TopRanked.

Lemma of_dict_key_lt a b :
  key_lt (MemoryEntry.of_dict a) (MemoryEntry.of_dict b) = key_lt a b.
Proof. reflexivity. Qed.

(** X10: [get_user_context] answers an unknown user with an empty list,
    and for a known user whose entries can be ordered and a limit of [n >= 0]
    it returns min(n, number of candidates) entries: the candidates (all
    entries, or those of the given non-empty session id) that rank highest
    by (relevance_score, timestamp), in descending order, every entry left
    out ranking at or below every entry returned. *)
Theorem get_user_context_ranked svc uid session_id limit :
  (get uid (memory_storage svc) = None ->
   get_user_context svc uid session_id limit
   = {| success := true; memory_entries := Some [];
        response_summary := None |})
  /\ (forall um,
        get uid (memory_storage svc) = Some um ->
        0 <= limit ->
        rankable (candidates session_id (entries um)) = true ->
        exists ranked rest,
          get_user_context svc uid session_id limit
          = {| success := true;
               memory_entries := Some (map MemoryEntry.of_dict ranked);
               response_summary := context_summary um |}
          /\ Permutation (candidates session_id (entries um))
                         (ranked ++ rest)
          /\ List.length ranked
             = Nat.min (Z.to_nat limit)
                       (List.length (candidates session_id (entries um)))
          /\ StronglySorted key_ge ranked
          /\ forall k r, In k ranked -> In r rest -> key_ge k r).
Proof.
  unfold get_user_context. split.
  - now intros ->.
  - intros um -> Hlimit Hrank. unfold sorted_checked.
    unfold rankable in Hrank. rewrite Hrank.
    destruct (top_ranked key_lt key_lt_asym key_ge_trans limit
                (candidates session_id (entries um)) Hlimit)
      as [rest H].
    exists (slice_to limit
              (sorted_desc key_lt (candidates session_id (entries um)))),
      rest.
    split; [reflexivity | exact H].
Qed.

Lemma get_user_context_ranked_witness :
  let svc := store_all small_service ranked_calls in
  option_map (map MemoryEntry.id)
             (memory_entries (get_user_context svc "u1" None 3))
  = Some ["e5"; "e2"; "e3"].
Proof.
  destruct (get_user_context_ranked (store_all small_service ranked_calls)
              "u1" None 3) as [_ H].
  destruct (get "u1" (memory_storage (store_all small_service ranked_calls)))
    as [um|] eqn:E; [|vm_compute in E; discriminate].
  destruct (H um eq_refl) as [ranked [rest [Hr _]]].
  - lia.
  - vm_compute in E. injection E as <-. vm_compute. reflexivity.
  - vm_compute. reflexivity.
Defined.

Lemma not_rankable es a b :
  In a es -> In b es ->
  MemoryEntry.relevance_score a == MemoryEntry.relevance_score b ->
  is_iso a = true -> is_datetime b = true ->
  forallb (fun x => forallb (key_comparable x) es) es = false.
Proof.
  intros Ha Hb Heq Hiso Hdt.
  apply not_true_iff_false. intros H.
  rewrite forallb_forall in H. specialize (H a Ha).
  rewrite forallb_forall in H. specialize (H b Hb).
  unfold key_comparable, same_kind, is_iso, is_datetime in *.
  apply Qeq_bool_iff in Heq. rewrite Heq in H.
  destruct (MemoryEntry.timestamp a); [discriminate|].
  destruct (MemoryEntry.timestamp b); discriminate.
Qed.

(** X11: when two candidates have the same relevance score and one carries
    the string timestamp of the snapshot while the other carries the
    [datetime] of a store made since, the sort raises and
    [get_user_context] reports failure with no entries. *)
Theorem get_user_context_mixed_timestamps svc uid session_id limit um a b :
  get uid (memory_storage svc) = Some um ->
  In a (candidates session_id (entries um)) ->
  In b (candidates session_id (entries um)) ->
  MemoryEntry.relevance_score a == MemoryEntry.relevance_score b ->
  is_iso a = true -> is_datetime b = true ->
  get_user_context svc uid session_id limit = failure.
Proof.
  intros Hu Ha Hb Heq Hiso Hdt. unfold get_user_context, sorted_checked.
  rewrite Hu. cbv zeta.
  now rewrite (not_rankable _ a b Ha Hb Heq Hiso Hdt).
Qed.

Lemma get_user_context_mixed_timestamps_witness :
  let svc := store_call snapshot_service
               (mk_call "e9" (days 100) (request "u1" "other" "i9" None)) in
  List.length (entries_of svc "u1") = 3%nat
  /\ get_user_context svc "u1" None 10 = failure.
Proof.
  split; [reflexivity|].
  eapply get_user_context_mixed_timestamps
    with (a := loaded_entry "e1" "u1" 69)
         (b := {| MemoryEntry.id := "e9"; MemoryEntry.user_id := "u1";
                  MemoryEntry.session_id := None;
                  MemoryEntry.timestamp := PDatetime (days 100);
                  MemoryEntry.interaction_type := "other";
                  MemoryEntry.data :=
                    [("type", PStr "other"); ("intent", PStr "i9")];
                  MemoryEntry.context := [];
                  MemoryEntry.relevance_score := (1 # 2)%Q |}).
  - reflexivity.
  - simpl. tauto.
  - simpl. tauto.
  - reflexivity.
  - reflexivity.
  - reflexivity.
Defined.

(** *** Store calls that fail *)

Lemma make_entry_raises new_id now request :
  payload_ok (MemoryRequest.interaction request) = false ->
  exists x, make_entry new_id now request = Raise x.
Proof.
  unfold payload_ok, make_entry, _calculate_relevance_score, sized,
    get_default.
  destruct (get "entities" (MemoryRequest.interaction request)) as [v|];
    [destruct (len v)|];
    (destruct (get "context" (MemoryRequest.interaction request)) as [c|];
     [destruct (len c)|]);
    destruct (get "type" (MemoryRequest.interaction request)) as [[]|];
    simpl; intros H; try discriminate; eauto.
Qed.

(** X12: a payload whose [type] is not a string, or whose [entities] or
    [context] value has no length, is not stored: [store_interaction]
    reports failure and leaves the whole state as it was; through the
    route this is an ordinary reply with [success = false], while an empty
    user id or an empty payload is answered with status 400. *)
Theorem store_rejects_malformed svc new_id now request :
  (payload_ok (MemoryRequest.interaction request) = false ->
   store_interaction svc new_id now request = (svc, failure)
   /\ (MemoryRequest.user_id request <> EmptyString ->
       route_store_interaction svc new_id now request
       = (svc, Body failure)))
  /\ (MemoryRequest.user_id request = EmptyString
      \/ MemoryRequest.interaction request = [] ->
      route_store_interaction svc new_id now request = (svc, Error 400)).
Proof.
  split.
  - intros Hbad.
    destruct (make_entry_raises new_id now request Hbad) as [x Hx].
    assert (Hs : store_interaction svc new_id now request = (svc, failure))
      by (unfold store_interaction; now rewrite Hx).
    split; [exact Hs|]. intros Hu. unfold route_store_interaction.
    destruct (MemoryRequest.user_id request); [congruence|].
    destruct (MemoryRequest.interaction request) eqn:Ei;
      [discriminate Hbad|].
    simpl truthy. cbv iota. now rewrite Hs.
  - unfold route_store_interaction. intros [->| ->]; [reflexivity|].
    now destruct (MemoryRequest.user_id request).
Qed.

Lemma store_rejects_malformed_witness :
  let request :=
    {| MemoryRequest.user_id := "u1"; MemoryRequest.session_id := None;
       MemoryRequest.interaction := [("entities", PInt 5)];
       MemoryRequest.context := None |} in
  route_store_interaction snapshot_service "e9" 1000 request
  = (snapshot_service, Body failure).
Proof.
  cbv zeta.
  destruct (store_rejects_malformed snapshot_service "e9" 1000
              {| MemoryRequest.user_id := "u1";
                 MemoryRequest.session_id := None;
                 MemoryRequest.interaction := [("entities", PInt 5)];
                 MemoryRequest.context := None |}) as [H _].
  destruct (H eq_refl) as [_ H']. apply H'. discriminate.
Defined.

(** *** The state a store call leaves *)

Lemma set_set {V : Type} (k : string) (v1 v2 : V) (d : dict V) :
  set k v2 (set k v1 d) = set k v2 d.
Proof.
  induction d as [|[k' v'] r IH]; simpl.
  - now rewrite String.eqb_refl.
  - destruct (String.eqb_spec k k') as [->|Hne]; simpl.
    + now rewrite String.eqb_refl.
    + destruct (String.eqb_spec k k'); [contradiction|]. now rewrite IH.
Qed.

Lemma store_storage svc new_id now request e :
  make_entry new_id now request = Ok e ->
  let uid := MemoryRequest.user_id request in
  let um1 := appended (aggregate_of svc uid now) now e in
  store_interaction svc new_id now request
  = match truncate (max_memory_entries svc) (entries um1) with
    | Raise _ =>
        (with_storage svc (set uid um1 (memory_storage svc)), failure)
    | Ok es =>
        let svc3 :=
          _update_context_summary
            (with_storage svc (set uid (with_entries um1 es)
                                   (memory_storage svc))) now uid in
        (svc3, {| success := true; memory_entries := Some [e];
                  response_summary := summary_of svc3 uid |})
    end.
Proof.
  intros He uid um1. unfold store_interaction. rewrite He. fold uid.
  unfold contains, aggregate_of in *.
  destruct (get uid (memory_storage svc)) as [um|] eqn:Eu.
  - rewrite Eu. fold (appended um now e). fold um1.
    destruct (truncate (max_memory_entries svc) (entries um1));
      [|reflexivity].
    now rewrite set_set.
  - rewrite get_set_eq. fold (appended (new_user_memory uid now) now e).
    fold um1.
    destruct (truncate (max_memory_entries svc) (entries um1));
      now rewrite !set_set.
Qed.

Lemma update_summary_get svc now uid uid' :
  uid' <> uid ->
  get uid' (memory_storage (_update_context_summary svc now uid))
  = get uid' (memory_storage svc).
Proof.
  intros Hne. unfold _update_context_summary.
  destruct (get uid (memory_storage svc)) as [um|]; [|reflexivity].
  destruct (entries um); [reflexivity|].
  destruct (build_summary now _); [|reflexivity]. simpl.
  apply get_set_neq. congruence.
Qed.

Lemma update_summary_same svc now uid um :
  get uid (memory_storage svc) = Some um ->
  exists um',
    get uid (memory_storage (_update_context_summary svc now uid)) = Some um'
    /\ entries um' = entries um
    /\ preferences um' = preferences um
    /\ user_id um' = user_id um
    /\ last_interaction um' = last_interaction um.
Proof.
  intros Hu. unfold _update_context_summary. rewrite Hu.
  destruct (entries um) eqn:Ees; [exists um; now rewrite Hu, Ees|].
  destruct (build_summary now _); [|exists um; now rewrite Hu, Ees].
  simpl. rewrite get_set_eq. eexists. split; [reflexivity|].
  simpl. now rewrite Ees.
Qed.

(** X13: a store call that finds room (the user's list is below
    [max_memory_entries]) and a well-formed payload succeeds and appends
    exactly one entry at the end of that user's list: the entry carries the
    generated id, the clock reading as a [datetime], the payload as [data],
    the [context] argument (empty when absent) and the payload's [type]
    ("unknown" when absent).  The user's preferences and the aggregates of
    all other users are untouched. *)
Theorem store_appends svc new_id now request :
  payload_ok (MemoryRequest.interaction request) = true ->
  let uid := MemoryRequest.user_id request in
  (List.length (entries_of svc uid) < max_memory_entries svc)%nat ->
  let r := store_interaction svc new_id now request in
  exists e,
    success (snd r) = true
    /\ memory_entries (snd r) = Some [e]
    /\ entries_of (fst r) uid = entries_of svc uid ++ [e]
    /\ MemoryEntry.id e = new_id
    /\ MemoryEntry.timestamp e = PDatetime now
    /\ MemoryEntry.data e = MemoryRequest.interaction request
    /\ MemoryEntry.context e
       = match MemoryRequest.context request with
         | Some c => c
         | None => []
         end
    /\ PStr (MemoryEntry.interaction_type e)
       = get_default "type" (PStr "unknown")
                     (MemoryRequest.interaction request)
    /\ get_user_preferences (fst r) uid = get_user_preferences svc uid
    /\ forall uid', uid' <> uid ->
         get uid' (memory_storage (fst r)) = get uid' (memory_storage svc).
Proof.
  intros Hok uid Hroom r.
  destruct (make_entry_total new_id now request Hok) as [e He].
  exists e. subst r. rewrite (store_storage _ _ _ _ _ He). fold uid.
  assert (Hold : entries (aggregate_of svc uid now) = entries_of svc uid).
  { unfold aggregate_of, entries_of.
    now destruct (get uid (memory_storage svc)). }
  assert (Hprefs : preferences (aggregate_of svc uid now)
                   = get_user_preferences svc uid).
  { unfold aggregate_of, get_user_preferences.
    now destruct (get uid (memory_storage svc)). }
  unfold truncate. simpl entries. rewrite Hold, length_app. simpl List.length.
  destruct (Nat.ltb_spec (max_memory_entries svc)
              (List.length (entries_of svc uid) + 1)) as [Hover|_]; [lia|].
  cbv zeta. simpl fst. simpl snd.
  set (svc2 := with_storage svc _).
  assert (H2 : get uid (memory_storage svc2)
               = Some (with_entries (appended (aggregate_of svc uid now)
                                              now e)
                                    (entries_of svc uid ++ [e])))
    by (subst svc2; simpl; apply get_set_eq).
  destruct (update_summary_same svc2 now uid _ H2)
    as [um' [Hum' [Hes [Hpr _]]]].
  split; [reflexivity|]. split; [reflexivity|].
  split; [unfold entries_of; now rewrite Hum', Hes|].
  unfold make_entry in He.
  destruct (_calculate_relevance_score _) as [sc|]; [|discriminate].
  simpl in He.
  destruct (get_default "type" (PStr "unknown") _) as [| | |ty| |] eqn:Ety;
    try discriminate.
  simpl in He. injection He as <-. simpl.
  repeat (split; [reflexivity|]).
  split.
  - unfold get_user_preferences at 1. rewrite Hum', Hpr. simpl.
    exact Hprefs.
  - intros uid' Hne. rewrite update_summary_get by assumption.
    subst svc2. simpl. apply get_set_neq. congruence.
Qed.

Lemma store_appends_witness :
  map MemoryEntry.id
      (entries_of (fst (store_interaction snapshot_service "e9" (days 100)
                          (request "u1" "other" "i9" (Some three_keys))))
                  "u1")
  = ["e1"; "e2"; "e9"].
Proof.
  destruct (store_appends snapshot_service "e9" (days 100)
              (request "u1" "other" "i9" (Some three_keys)) eq_refl)
    as [e [_ [_ [H _]]]].
  - vm_compute. lia.
  - reflexivity.
Defined.

(** X14: the capacity is not a hard bound after a restart.  When the
    user's list is full and holds a snapshot entry (string timestamp) whose
    relevance score equals, as a double, that of the new entry, the sort of
    the capacity check raises: the call reports failure, yet the entry stays
    appended and the list is one entry over [max_memory_entries]. *)
Theorem store_overflows_on_tie svc new_id now request e a :
  make_entry new_id now request = Ok e ->
  let uid := MemoryRequest.user_id request in
  List.length (entries_of svc uid) = max_memory_entries svc ->
  In a (entries_of svc uid) ->
  is_iso a = true ->
  MemoryEntry.relevance_score a == MemoryEntry.relevance_score e ->
  let r := store_interaction svc new_id now request in
  success (snd r) = false
  /\ entries_of (fst r) uid = entries_of svc uid ++ [e]
  /\ List.length (entries_of (fst r) uid) = S (max_memory_entries svc).
Proof.
  intros He uid Hfull Ha Hiso Heq r.
  assert (Hraise : truncate (max_memory_entries svc)
                            (entries_of svc uid ++ [e]) = Raise TypeError).
  { unfold truncate, sorted_checked. rewrite length_app, Hfull. simpl.
    destruct (Nat.ltb_spec (max_memory_entries svc)
                (max_memory_entries svc + 1)) as [_|]; [|lia].
    rewrite (not_rankable _ a e); try assumption; try reflexivity.
    - apply in_or_app. now left.
    - apply in_or_app. right. now left.
    - apply make_entry_score in He as [_ [Ht _]].
      unfold is_datetime. now rewrite Ht. }
  destruct (store_entries svc _ _ _ _ He) as [_ [Hmine _]].
  fold uid in Hmine. rewrite Hraise in Hmine. destruct Hmine as [H1 H2].
  subst r. split; [exact H2|]. split; [exact H1|].
  rewrite H1, length_app, Hfull. simpl. lia.
Qed.

Lemma store_overflows_on_tie_witness :
  let r := store_interaction small_snapshot "e5" (days 73)
             (request "u1" "other" "i5" None) in
  success (snd r) = false
  /\ List.length (entries_of (fst r) "u1") = 5%nat.
Proof.
  destruct (store_overflows_on_tie small_snapshot "e5" (days 73)
              (request "u1" "other" "i5" None)
              {| MemoryEntry.id := "e5"; MemoryEntry.user_id := "u1";
                 MemoryEntry.session_id := None;
                 MemoryEntry.timestamp := PDatetime (days 73);
                 MemoryEntry.interaction_type := "other";
                 MemoryEntry.data :=
                   [("type", PStr "other"); ("intent", PStr "i5")];
                 MemoryEntry.context := [];
                 MemoryEntry.relevance_score := (1 # 2)%Q |}
              (loaded_entry "e1" "u1" 69) eq_refl eq_refl)
    as [H1 [_ H3]].
  - simpl. tauto.
  - reflexivity.
  - reflexivity.
  - split; assumption.
Defined.

(** The tie has to be one of doubles.  On a snapshot full of purchases
    ([0.8]) a question with one entity scores [0.7999999999999999]: the
    scores differ, the timestamps are never compared, the call succeeds and
    the list is cut to the capacity, the new entry being the one dropped.
    One more purchase ties, and the list overflows. *)
Lemma store_near_tie_truncates :
  let r := store_interaction purchase_snapshot "e5" (days 73) near_request in
  let r' := store_interaction purchase_snapshot "e5" (days 73)
              (request "u1" "purchase" "i5" None) in
  success (snd r) = true
  /\ map MemoryEntry.id (entries_of (fst r) "u1") = ["e4"; "e3"; "e2"; "e1"]
  /\ success (snd r') = false
  /\ map MemoryEntry.id (entries_of (fst r') "u1")
     = ["e1"; "e2"; "e3"; "e4"; "e5"].
Proof. vm_compute. repeat split. Qed.

(** *** Runs that start from the empty service *)

Lemma datetime_summary_raises now es :
  es <> [] -> forallb is_datetime es = true ->
  exists x, build_summary now es = Raise x.
Proof.
  intros Hne Hdt. destruct es as [|e r]; [contradiction|].
  apply (build_summary_in_process now (e :: r) e); [now left|].
  simpl in Hdt. now apply andb_prop in Hdt as [H _].
Qed.

Lemma store_call_process svc c :
  process_invariant svc -> process_invariant (store_call svc c).
Proof.
  intros [Hcap [Hwf Hall]]. unfold store_call.
  destruct (make_entry (call_id c) (call_time c) (call_request c))
    as [e|x] eqn:He;
    [|unfold store_interaction; rewrite He; simpl;
      unfold process_invariant; auto].
  rewrite (store_storage _ _ _ _ _ He).
  set (uid := MemoryRequest.user_id (call_request c)).
  set (um := aggregate_of svc uid (call_time c)).
  assert (Hum : forallb is_datetime (entries um) = true
                /\ (List.length (entries um) <= max_memory_entries svc)%nat
                /\ context_summary um = None).
  { subst um. unfold aggregate_of.
    destruct (get uid (memory_storage svc)) as [um0|] eqn:E;
      [now apply (Hall uid)|]. simpl. repeat split. lia. }
  destruct Hum as [Hdt [Hlen Hsum]].
  assert (Hdt1 : forallb is_datetime (entries um ++ [e]) = true).
  { rewrite forallb_app, Hdt. simpl.
    apply make_entry_score in He as [_ [Ht _]].
    unfold is_datetime. now rewrite Ht. }
  simpl entries. rewrite (truncate_datetime _ _ Hdt1).
  set (es := if (max_memory_entries svc <? _)%nat then _ else _).
  assert (Hes : forallb is_datetime es = true
                /\ (List.length es <= max_memory_entries svc)%nat).
  { subst es.
    destruct (Nat.ltb_spec (max_memory_entries svc)
                (List.length (entries um ++ [e]))) as [Hover|Hfits].
    - split; [|rewrite length_firstn; lia].
      apply forallb_incl with (l := entries um ++ [e]); [|assumption].
      intros x Hx. apply in_firstn in Hx.
      apply (Permutation_in x (Permutation_sym
                                 (sorted_desc_perm key_lt _))). exact Hx.
    - split; assumption. }
  destruct Hes as [Hesdt Heslen].
  cbv zeta. simpl fst.
  set (svc2 := with_storage svc _).
  assert (H3 : _update_context_summary svc2 (call_time c) uid = svc2).
  { unfold _update_context_summary. subst svc2. simpl.
    rewrite get_set_eq. simpl.
    destruct es as [|x r] eqn:Ees; [reflexivity|].
    destruct (datetime_summary_raises (call_time c) (x :: r)) as [y ->];
      [discriminate | assumption | reflexivity]. }
  rewrite H3. subst svc2. unfold process_invariant. simpl.
  split; [assumption|]. split; [now apply wf_set|].
  intros u um' Hu. destruct (String.eqb_spec uid u) as [<-|Hne].
  - rewrite get_set_eq in Hu. injection Hu as <-. simpl.
    repeat split; assumption.
  - rewrite get_set_neq in Hu by assumption. now apply (Hall u).
Qed.

Lemma store_all_process calls :
  forall svc, process_invariant svc -> process_invariant (store_all svc calls).
Proof.
  induction calls as [|c r IH]; intros svc H; simpl; [assumption|].
  apply IH. now apply store_call_process.
Qed.

Lemma init_process : process_invariant MemoryService.init.
Proof.
  unfold process_invariant. simpl. repeat split; try discriminate.
  constructor.
Qed.

(** X15: whatever the calls (any users, any payloads, successful or not),
    a service that started empty never holds more than
    [max_memory_entries] = 1000 entries for a user. *)
Theorem store_all_within_capacity calls uid :
  (List.length (entries_of (store_all MemoryService.init calls) uid)
   <= 1000)%nat.
Proof.
  destruct (store_all_process calls _ init_process) as [Hcap [_ Hall]].
  unfold entries_of.
  destruct (get uid (memory_storage (store_all MemoryService.init calls)))
    as [um|] eqn:E; [|simpl; lia].
  destruct (Hall uid um E) as [_ [Hlen _]]. rewrite Hcap in Hlen.
  exact Hlen.
Qed.

(** X16: in a service that started empty no store call ever writes a
    context summary: every entry carries a [datetime] timestamp, on which
    the recomputation raises, so [context_summary] stays the empty dict for
    every user, whatever is stored. *)
Theorem store_all_never_summarises calls uid :
  summary_of (store_all MemoryService.init calls) uid = None
  /\ forallb is_datetime
       (entries_of (store_all MemoryService.init calls) uid) = true.
Proof.
  destruct (store_all_process calls _ init_process) as [_ [_ Hall]].
  unfold summary_of, entries_of.
  destruct (get uid (memory_storage (store_all MemoryService.init calls)))
    as [um|] eqn:E; [|split; reflexivity].
  destruct (Hall uid um E) as [Hdt [_ Hsum]]. split; assumption.
Qed.

(** *** Preferences *)

(** X17: [update_user_preferences] always succeeds; afterwards
    [get_user_preferences] returns, for every key, the value of the patch
    when the patch has the key and the former value otherwise (an unknown
    user starts from no preferences and is created with no entries); the
    user's entries and every other user's aggregate are untouched. *)
Theorem preferences_round_trip svc now uid prefs :
  wf prefs ->
  let r := update_user_preferences svc now uid prefs in
  success (snd r) = true
  /\ (forall k,
        get k (get_user_preferences (fst r) uid)
        = match get k prefs with
          | Some v => Some v
          | None => get k (get_user_preferences svc uid)
          end)
  /\ get uid (memory_storage (fst r)) <> None
  /\ entries_of (fst r) uid = entries_of svc uid
  /\ summary_of (fst r) uid = summary_of svc uid
  /\ forall uid', uid' <> uid ->
       get uid' (memory_storage (fst r)) = get uid' (memory_storage svc).
Proof.
  intros Hwf r. subst r.
  unfold update_user_preferences, get_user_preferences, entries_of,
    summary_of, contains.
  destruct (get uid (memory_storage svc)) as [um|] eqn:E.
  - rewrite E. simpl. rewrite get_set_eq. simpl.
    repeat split; try discriminate.
    + intros k. now apply get_update.
    + intros uid' Hne. apply get_set_neq. congruence.
  - rewrite get_set_eq. simpl. rewrite set_set, get_set_eq. simpl.
    repeat split; try discriminate.
    + intros k. apply (get_update k [] prefs Hwf).
    + intros uid' Hne. apply get_set_neq. congruence.
Qed.

Lemma preferences_round_trip_witness :
  let prefs := [("language", PStr "fr"); ("theme", PStr "dark")] in
  let svc := fst (update_user_preferences snapshot_service 1000 "u1" prefs) in
  get "theme" (get_user_preferences svc "u1") = Some (PStr "dark")
  /\ List.length (entries_of svc "u1") = 2%nat.
Proof.
  assert (Hwf : wf [("language", PStr "fr"); ("theme", PStr "dark")]).
  { unfold wf. simpl. repeat constructor; simpl; intuition discriminate. }
  destruct (preferences_round_trip snapshot_service 1000 "u1" _ Hwf)
    as [_ [H _]].
  split; [exact (H "theme") | reflexivity].
Defined.

(** X18: preferences do not survive the retention sweep on their own.  In
    a store as read from the snapshot, a user none of whose entries is later
    than the cut-off date (in particular a user who has preferences but no
    entries) is deleted by the sweep with everything attached, so
    [get_user_preferences] returns the empty dict afterwards. *)
Theorem sweep_drops_preferences svc now uid um :
  wf (memory_storage svc) ->
  loaded (memory_storage svc) ->
  get uid (memory_storage svc) = Some um ->
  (forall e, In e (entries um) ->
             instant (MemoryEntry.timestamp e)
             <= now - days (memory_retention_days svc)) ->
  get uid (memory_storage (_cleanup_old_entries svc now)) = None
  /\ get_user_preferences (_cleanup_old_entries svc now) uid = [].
Proof.
  intros Hwf Hld Hu Hold.
  assert (Hkeys : forall u, In u (keys (memory_storage svc)) ->
                            get u (memory_storage svc) <> None).
  { intros u Hin Hnone. now apply get_none_iff in Hnone. }
  destruct (cleanup_loop_get (now - days (memory_retention_days svc))
              (keys (memory_storage svc)) (memory_storage svc)
              Hwf Hld Hwf Hkeys uid) as [H1 _].
  assert (Hgone : get uid (memory_storage (_cleanup_old_entries svc now))
                  = None).
  { unfold _cleanup_old_entries. simpl. rewrite H1.
    - rewrite Hu. unfold swept.
      rewrite (SessionExtra.filter_none (younger _) (entries um));
        [reflexivity|].
      intros e He. unfold younger. apply Z.ltb_ge. now apply Hold.
    - destruct (in_dec string_dec uid (keys (memory_storage svc)))
        as [Hin|Hout]; [assumption|].
      apply get_none_iff in Hout. congruence. }
  split; [exact Hgone|]. unfold get_user_preferences. now rewrite Hgone.
Qed.

Lemma sweep_drops_preferences_witness :
  let svc :=
    fst (update_user_preferences snapshot_service (days 99) "u3"
           [("theme", PStr "dark")]) in
  get "theme" (get_user_preferences svc "u3") = Some (PStr "dark")
  /\ get_user_preferences (_cleanup_old_entries svc (days 100)) "u3" = [].
Proof.
  split; [reflexivity|].
  eapply sweep_drops_preferences.
  - unfold wf. simpl. repeat constructor; simpl; intuition discriminate.
  - apply loadedb_loaded. reflexivity.
  - reflexivity.
  - intros e [].
Defined.

(** *** Erasing a user *)

(** X19: [cleanup_user_data] always reports success and leaves no trace of
    the user: the aggregate is gone, context and search return no entries,
    the preferences are empty, the user count drops by one exactly when the
    user was known, every other user is untouched, and a repeated call
    changes nothing. *)
Theorem cleanup_user_data_spec svc uid :
  wf (memory_storage svc) ->
  let r := cleanup_user_data svc uid in
  success (snd r) = true
  /\ get uid (memory_storage (fst r)) = None
  /\ (forall sid limit,
        memory_entries (get_user_context (fst r) uid sid limit) = Some [])
  /\ (forall lower query limit,
        memory_entries (search_user_memory lower (fst r) uid query limit)
        = Some [])
  /\ get_user_preferences (fst r) uid = []
  /\ (forall now,
        (total_users (get_memory_stats (fst r) now)
         + (if contains uid (memory_storage svc) then 1 else 0)
         = total_users (get_memory_stats svc now))%nat)
  /\ (forall uid', uid' <> uid ->
        get uid' (memory_storage (fst r)) = get uid' (memory_storage svc))
  /\ cleanup_user_data (fst r) uid = (fst r, snd r).
Proof.
  intros Hwf r.
  assert (Hgone : get uid (memory_storage (fst r)) = None).
  { subst r. unfold cleanup_user_data, contains.
    destruct (get uid (memory_storage svc)) eqn:E; simpl;
      [now apply get_del_eq | assumption]. }
  split; [subst r; unfold cleanup_user_data;
          now destruct (contains uid (memory_storage svc))|].
  split; [exact Hgone|]. split; [|split; [|split; [|split; [|split]]]].
  - intros sid limit. unfold get_user_context. now rewrite Hgone.
  - intros lower query limit. unfold search_user_memory. now rewrite Hgone.
  - unfold get_user_preferences. now rewrite Hgone.
  - intros now. subst r. unfold cleanup_user_data, get_memory_stats.
    destruct (contains uid (memory_storage svc)) eqn:Ec; simpl;
      [|lia].
    pose proof (length_del uid (memory_storage svc) Ec). lia.
  - intros uid' Hne. subst r. unfold cleanup_user_data.
    destruct (contains uid (memory_storage svc)); simpl; [|reflexivity].
    apply get_del_neq. congruence.
  - unfold cleanup_user_data at 1. unfold contains. rewrite Hgone.
    subst r. unfold cleanup_user_data.
    now destruct (contains uid (memory_storage svc)).
Qed.

Lemma cleanup_user_data_spec_witness :
  let svc := fst (cleanup_user_data snapshot_service "u1") in
  keys (memory_storage svc) = ["u2"]
  /\ memory_entries (get_user_context svc "u1" None 10) = Some [].
Proof.
  assert (Hwf : wf (memory_storage snapshot_service)).
  { unfold wf. simpl. repeat constructor; simpl; intuition discriminate. }
  destruct (cleanup_user_data_spec snapshot_service "u1" Hwf)
    as [_ [_ [H _]]].
  split; [reflexivity | exact (H None 10)].
Defined.

(** *** Statistics *)

Lemma list_sum_bound {A : Type} (f : A -> nat) (c : nat) (l : list A) :
  (forall x, In x l -> (f x <= c)%nat) ->
  (list_sum (map f l) <= List.length l * c)%nat.
Proof.
  induction l as [|x r IH]; intros H; simpl; [lia|].
  specialize (IH (fun y Hy => H y (or_intror Hy))).
  specialize (H x (or_introl eq_refl)). lia.
Qed.

(** X20: the counters of [get_memory_stats] on a service that started
    empty: the users active in the last week are at most the users, and
    the entries are at most 1000 per user. *)
Theorem stats_bounds calls now :
  let st := get_memory_stats (store_all MemoryService.init calls) now in
  (active_users_last_week st <= total_users st)%nat
  /\ (total_entries st <= total_users st * 1000)%nat.
Proof.
  destruct (store_all_process calls _ init_process) as [Hcap [Hwf Hall]].
  unfold get_memory_stats. simpl. split.
  - apply filter_length_le.
  - apply list_sum_bound. intros [k um] Hin. simpl.
    apply (in_get_some k um _ Hwf) in Hin.
    destruct (Hall k um Hin) as [_ [Hlen _]]. rewrite Hcap in Hlen.
    exact Hlen.
Qed.

(** *** Search results *)

Lemma score_lt_asym a b : score_lt a b = true -> score_lt b a = false.
Proof.
  unfold score_lt, Qlt_bool. rewrite negb_true_iff, negb_false_iff.
  rewrite <- not_true_iff_false, !Qle_bool_iff. intros H.
  apply Qlt_le_weak. now apply Qnot_le_lt.
Qed.

Lemma score_ge_trans a b c :
  score_lt a b = false -> score_lt b c = false -> score_lt a c = false.
Proof.
  unfold score_lt, Qlt_bool. rewrite !negb_false_iff, !Qle_bool_iff.
  intros H1 H2. lra.
Qed.

(** X21: for a known user and a limit of [n >= 0], [search_user_memory]
    returns min(n, number of matches) entries, where a match is an entry
    of the user with a positive search score for the lower-cased query:
    the highest scoring matches, in descending order of score, every match
    left out scoring at most as much as every match returned.  The scores
    are the doubles the code computes, and the statement holds whatever
    [str.lower] does to the texts. *)
Theorem search_ranked lower svc uid query limit um :
  get uid (memory_storage svc) = Some um ->
  0 <= limit ->
  let found := filter (fun es => Qlt_bool 0 (snd es))
                      (map (scored lower (lower query)) (entries um)) in
  exists ranked rest,
    search_user_memory lower svc uid query limit
    = {| success := true;
         memory_entries :=
           Some (map (fun es => MemoryEntry.of_dict (fst es)) ranked);
         response_summary := None |}
    /\ Permutation found (ranked ++ rest)
    /\ List.length ranked = Nat.min (Z.to_nat limit) (List.length found)
    /\ StronglySorted (not_below score_lt) ranked
    /\ (forall k r, In k ranked -> In r rest -> (snd r <= snd k)%Q)
    /\ (forall k, In k ranked ->
                  In (fst k) (entries um)
                  /\ (0 < snd k)%Q
                  /\ snd k = _calculate_search_score lower (fst k)
                                (lower query)).
Proof.
  intros Hu Hlimit found.
  destruct (top_ranked score_lt score_lt_asym score_ge_trans limit found
              Hlimit) as [rest [Hperm [Hlen [Hsorted Hge]]]].
  exists (slice_to limit (sorted_desc score_lt found)), rest.
  split; [unfold search_user_memory; now rewrite Hu|].
  split; [assumption|]. split; [assumption|]. split; [assumption|].
  split.
  - intros k r Hk Hr. specialize (Hge k r Hk Hr).
    unfold score_lt, Qlt_bool in Hge.
    now rewrite negb_false_iff, Qle_bool_iff in Hge.
  - intros k Hk.
    assert (Hin : In k found).
    { apply (Permutation_in k (Permutation_sym Hperm)).
      apply in_or_app. now left. }
    subst found. apply filter_In in Hin as [Hin Hpos].
    apply in_map_iff in Hin as [e [<- He]]. simpl in *.
    split; [assumption|]. split; [|reflexivity].
    unfold Qlt_bool in Hpos. rewrite negb_true_iff in Hpos.
    rewrite <- not_true_iff_false, Qle_bool_iff in Hpos.
    now apply Qnot_le_lt.
Qed.

Lemma search_ranked_witness :
  option_map (map MemoryEntry.id)
    (memory_entries
       (search_user_memory ascii_lower (store_all small_service ranked_calls)
          "u1" "PURCHASE i5" 2))
  = Some ["e5"; "e2"].
Proof.
  destruct (get "u1" (memory_storage (store_all small_service ranked_calls)))
    as [um|] eqn:E; [|vm_compute in E; discriminate].
  destruct (search_ranked ascii_lower (store_all small_service ranked_calls)
              "u1" "PURCHASE i5" 2 um E) as [ranked [rest [_ _]]]; [lia|].
  vm_compute. reflexivity.
Defined.

(** *** The search route *)

Lemma search_length lower svc uid query limit :
  0 <= limit ->
  exists l,
    memory_entries (search_user_memory lower svc uid query limit) = Some l
    /\ (List.length l <= Z.to_nat limit)%nat.
Proof.
  intros Hlimit. unfold search_user_memory.
  destruct (get uid (memory_storage svc)) as [um|]; simpl;
    [|exists []; split; [reflexivity | simpl; lia]].
  eexists. split; [reflexivity|]. rewrite length_map. unfold slice_to.
  destruct (Z.ltb_spec limit 0); [lia|]. apply firstn_le_length.
Qed.

(** X22: the search route answers only when [limit] is between 1 and 20
    and the query, stripped of the white space of Unicode around it, has at
    least two characters (not bytes); the answer is then the service's,
    with at most [limit] entries.  A query made of white space only, the
    empty one included, never reaches the service: the route ends with
    status 400 when [limit] is in range and 422 otherwise. *)
Theorem route_search_guard lower svc uid query limit :
  (forall r,
      route_search_user_memory lower svc uid query limit = Body r ->
      1 <= limit <= 20
      /\ (2 <= str_len (strip query))%nat
      /\ r = search_user_memory lower svc uid query limit
      /\ exists l, memory_entries r = Some l
                   /\ (List.length l <= Z.to_nat limit)%nat)
  /\ (blank query = true ->
      route_search_user_memory lower svc uid query limit
      = Error (if (limit <? 1) || (20 <? limit) then 422%nat else 400%nat)).
Proof.
  unfold route_search_user_memory. split.
  - intros r.
    destruct (Z.ltb_spec limit 1); [discriminate|].
    destruct (Z.ltb_spec 20 limit); [discriminate|]. simpl.
    destruct (Nat.ltb_spec (str_len (strip query)) 2);
      [discriminate|].
    intros [= <-]. split; [lia|]. split; [assumption|].
    split; [reflexivity|]. apply search_length. lia.
  - intros Hb. rewrite (strip_blank query Hb).
    change (str_len EmptyString <? 2)%nat with true.
    now destruct ((limit <? 1) || (20 <? limit)).
Qed.

(** A query of a no-break space and an ideographic space is answered with
    400, and so is the one-character query [e acute], two bytes long. *)
Lemma route_search_guard_witness :
  let nbsp := String (ascii_of_nat 194) (String (ascii_of_nat 160)
                                                EmptyString) in
  let wide := String (ascii_of_nat 227)
                (String (ascii_of_nat 128)
                   (String (ascii_of_nat 128) EmptyString)) in
  let e_acute := String (ascii_of_nat 195) (String (ascii_of_nat 169)
                                                   EmptyString) in
  route_search_user_memory ascii_lower
    (store_all small_service ranked_calls) "u1" (nbsp ++ wide)%string 5
  = Error 400
  /\ route_search_user_memory ascii_lower
       (store_all small_service ranked_calls) "u1" e_acute 5
     = Error 400.
Proof.
  cbv zeta. split.
  - destruct (route_search_guard ascii_lower
                (store_all small_service ranked_calls) "u1"
                (String (ascii_of_nat 194)
                   (String (ascii_of_nat 160)
                      (String (ascii_of_nat 227)
                         (String (ascii_of_nat 128)
                            (String (ascii_of_nat 128) EmptyString)))))
                5) as [_ H].
    exact (H eq_refl).
  - vm_compute. reflexivity.
Defined.

(** *** The summary that is built *)

Lemma sum_set_incr (d : dict nat) (t : string) :
  list_sum (values (set t (match get t d with
                           | Some n => n
                           | None => 0
                           end + 1) d))%nat
  = (list_sum (values d) + 1)%nat.
Proof.
  unfold values. induction d as [|[k v] r IH]; simpl; [reflexivity|].
  destruct (String.eqb_spec t k) as [->|Hne]; simpl; [lia|].
  rewrite IH. lia.
Qed.

Lemma scan_entries_sum l :
  forall acc acc',
    scan_entries acc l = Ok acc' ->
    list_sum (values (scan_types acc'))
    = (list_sum (values (scan_types acc)) + List.length l)%nat.
Proof.
  induction l as [|e r IH]; intros acc acc' H; simpl in *.
  - injection H as <-. lia.
  - destruct (scan_entry acc e) as [acc1|] eqn:E1; simpl in H;
      [|discriminate].
    rewrite (IH _ _ H).
    unfold scan_entry in E1.
    destruct (iter _); simpl in E1; [|discriminate].
    destruct (count_entities _ _); simpl in E1; [|discriminate].
    injection E1 as <-. simpl. rewrite sum_set_incr. lia.
Qed.

Lemma filter_after_iso bound es l :
  filter_after bound es = Ok l -> forallb is_iso es = true.
Proof.
  revert l. induction es as [|e r IH]; intros l H; simpl in *;
    [reflexivity|].
  unfold is_iso at 1.
  destruct (MemoryEntry.timestamp e); simpl in H; [discriminate|].
  destruct (filter_after bound r) as [l'|]; simpl in H; [|discriminate].
  now rewrite (IH l').
Qed.

(** X23: whenever [_update_context_summary] does build a summary from a
    non-empty entry list, every entry of the list carries a string
    timestamp, [total_interactions] is the number of entries,
    [recent_interactions] is min(20, that number), the counts in
    [interaction_types] add up to [recent_interactions], a most common
    interaction is named, and [recent_intents] and [common_entities] hold
    at most five items each. *)
Theorem build_summary_shape now es cs :
  es <> [] ->
  build_summary now es = Ok cs ->
  forallb is_iso es = true
  /\ total_interactions cs = List.length es
  /\ recent_interactions cs = Nat.min 20 (List.length es)
  /\ list_sum (values (interaction_types cs)) = recent_interactions cs
  /\ most_common_interaction cs <> None
  /\ (List.length (recent_intents cs) <= 5)%nat
  /\ (List.length (common_entities cs) <= 5)%nat
  /\ last_updated cs = now.
Proof.
  intros Hne. unfold build_summary, sorted_checked.
  destruct (forallb _ es); [|discriminate].
  cbv beta iota zeta delta [bind].
  remember (firstn 20 (sorted_desc ts_lt es)) as recent eqn:Er.
  assert (Hrecent : List.length recent = Nat.min 20 (List.length es))
    by (subst recent; now rewrite length_firstn, sorted_desc_length).
  destruct (scan_entries _ recent) as [acc|] eqn:Escan; [|discriminate].
  destruct (_calculate_activity_level now es) as [level|] eqn:Elevel;
    [|discriminate].
  intros [= <-]. simpl.
  apply scan_entries_sum in Escan. simpl in Escan.
  split.
  - unfold _calculate_activity_level in Elevel.
    destruct es as [|e r]; [contradiction|].
    destruct (filter_after _ (e :: r)) as [l|] eqn:Ef; [|discriminate].
    now apply filter_after_iso in Ef.
  - split; [reflexivity|]. split; [exact Hrecent|].
    split; [exact Escan|]. split; [|split; [|split; [|reflexivity]]].
    + destruct (scan_types acc); [|discriminate].
      destruct es; [contradiction|]. simpl in *. lia.
    + unfold last_n. rewrite length_skipn. lia.
    + exact (firstn_le_length 5
               (sorted_desc (fun a b : pyval * nat => (snd a <? snd b)%nat)
                            (scan_entities acc))).
Qed.

Lemma build_summary_shape_witness :
  exists cs,
    build_summary (days 100)
      (entries_of snapshot_service "u1") = Ok cs
    /\ recent_interactions cs = 2%nat
    /\ list_sum (values (interaction_types cs)) = 2%nat.
Proof.
  destruct (build_summary (days 100) (entries_of snapshot_service "u1"))
    as [cs|] eqn:E; [|vm_compute in E; discriminate].
  exists cs. split; [reflexivity|].
  destruct (build_summary_shape (days 100)
              (entries_of snapshot_service "u1") cs)
    as [_ [_ [H1 [H2 _]]]].
  - discriminate.
  - exact E.
  - split; [exact H1 | now rewrite H2].
Defined.

(** *** The context and preferences routes *)

Lemma context_length svc uid session_id limit :
  0 <= limit ->
  match memory_entries (get_user_context svc uid session_id limit) with
  | Some l =>
      success (get_user_context svc uid session_id limit) = true
      /\ (List.length l <= Z.to_nat limit)%nat
  | None => get_user_context svc uid session_id limit = failure
  end.
Proof.
  intros Hlimit. unfold get_user_context.
  destruct (get uid (memory_storage svc)) as [um|]; simpl;
    [|split; [reflexivity | lia]].
  destruct (sorted_checked key_comparable key_lt
              (candidates session_id (entries um))) as [sorted|];
    simpl; [|reflexivity].
  split; [reflexivity|]. rewrite length_map. unfold slice_to.
  destruct (Z.ltb_spec limit 0); [lia|]. apply firstn_le_length.
Qed.

(** X24: the context route refuses a [limit] outside 1..50 with status
    422 and otherwise passes on the service's answer, which either is a
    success with at most [limit] entries or is the failure reply, with no
    entries at all. *)
Theorem route_get_user_context_guard svc uid session_id limit :
  (limit < 1 \/ 50 < limit ->
   route_get_user_context svc uid session_id limit = Error 422)
  /\ (1 <= limit <= 50 ->
      exists r,
        route_get_user_context svc uid session_id limit = Body r
        /\ r = get_user_context svc uid session_id limit
        /\ match memory_entries r with
           | Some l => success r = true
                       /\ (List.length l <= Z.to_nat limit)%nat
           | None => r = failure
           end).
Proof.
  unfold route_get_user_context. split.
  - intros [H|H].
    + destruct (Z.ltb_spec limit 1); [reflexivity | lia].
    + destruct (Z.ltb_spec 50 limit); [|lia].
      now rewrite orb_true_r.
  - intros [H1 H2].
    destruct (Z.ltb_spec limit 1); [lia|].
    destruct (Z.ltb_spec 50 limit); [lia|]. simpl.
    eexists. split; [reflexivity|]. split; [reflexivity|].
    apply context_length. lia.
Qed.

Lemma route_get_user_context_guard_witness :
  route_get_user_context snapshot_service "u1" None 60 = Error 422
  /\ exists r,
       route_get_user_context snapshot_service "u1" None 1 = Body r
       /\ option_map (map MemoryEntry.id) (memory_entries r) = Some ["e2"].
Proof.
  split.
  - destruct (route_get_user_context_guard snapshot_service "u1" None 60)
      as [H _].
    apply H. right. reflexivity.
  - destruct (route_get_user_context_guard snapshot_service "u1" None 1)
      as [_ H].
    destruct H as [r [Hr [Heq _]]]; [lia|].
    exists r. split; [exact Hr|]. rewrite Heq. vm_compute. reflexivity.
Defined.

(** X25: the preferences route refuses an empty patch with status 400
    and leaves the store as it was, so that an unknown user is not created
    by it; a patch with at least one key is applied and answered with
    success, every key of the patch reading back with the value given. *)
Theorem route_update_user_preferences_spec svc now uid prefs :
  (prefs = [] ->
   route_update_user_preferences svc now uid prefs = (svc, Error 400))
  /\ (prefs <> [] -> wf prefs ->
      exists svc',
        route_update_user_preferences svc now uid prefs
        = (svc', Body {| success := true; memory_entries := None;
                         response_summary := None |})
        /\ get uid (memory_storage svc') <> None
        /\ (forall k v, get k prefs = Some v ->
                        get k (get_user_preferences svc' uid) = Some v)
        /\ (forall k, get k prefs = None ->
                      get k (get_user_preferences svc' uid)
                      = get k (get_user_preferences svc uid))).
Proof.
  unfold route_update_user_preferences. split; [now intros ->|].
  intros Hne Hwf.
  assert (T : truthy prefs = true)
    by (destruct prefs; [congruence | reflexivity]).
  rewrite T.
  unfold update_user_preferences, get_user_preferences, contains.
  destruct (get uid (memory_storage svc)) as [um|] eqn:E.
  - rewrite E. eexists. split; [reflexivity|]. simpl.
    rewrite get_set_eq. simpl.
    split; [discriminate|]. split.
    + intros k v Hk.
      pose proof (get_update k (preferences um) prefs Hwf) as G.
      rewrite Hk in G. exact G.
    + intros k Hk.
      pose proof (get_update k (preferences um) prefs Hwf) as G.
      rewrite Hk in G. exact G.
  - rewrite get_set_eq. eexists. split; [reflexivity|]. simpl.
    rewrite set_set, get_set_eq. simpl.
    split; [discriminate|]. split.
    + intros k v Hk.
      pose proof (get_update k [] prefs Hwf) as G.
      rewrite Hk in G. exact G.
    + intros k Hk.
      pose proof (get_update k [] prefs Hwf) as G.
      rewrite Hk in G. exact G.
Qed.

Lemma route_update_user_preferences_spec_witness :
  exists svc',
    fst (route_update_user_preferences snapshot_service 1000 "u9"
           [("theme", PStr "dark")]) = svc'
    /\ get "theme" (get_user_preferences svc' "u9") = Some (PStr "dark").
Proof.
  assert (Hwf : wf [("theme", PStr "dark")]).
  { unfold wf. simpl. repeat constructor; simpl; intuition discriminate. }
  destruct (route_update_user_preferences_spec snapshot_service 1000 "u9"
              [("theme", PStr "dark")]) as [_ H].
  destruct H as [svc' [Hr [_ [Hk _]]]]; [discriminate | exact Hwf |].
  exists svc'. split; [now rewrite Hr|].
  apply Hk. reflexivity.
Defined.

End MemoryExtra.
